(** * Shallow embedding of the cticker view-state engine

    This development models the price board ([priceboard.c],
    [ui_priceboard.c]), the chart engine ([chart.c], with the event loop of
    [main.c]) and the background fetcher ([fetcher.c]).

    Modelling conventions:
    - C [int] indices and counts are [Z]; buffers are Rocq lists, and a
      buffer's [count] is its length.
    - Numeric market values ([double] in the source) are modelled as [Z]:
      the code only compares them with [<], [>] and [==], and the claims
      only depend on that total order.
    - The external collaborators (network fetches, the clock, the terminal
      hit test) are parameters of the operations that call them. *)

From Stdlib Require Import ZArith List String Ascii Bool Lia Permutation Sorted.
Import ListNotations.
Open Scope Z_scope.

(* ------------------------------------------------------------------ *)
(** ** Data model ([cticker.h]) *)

Record TickerData := mkTicker {
  symbol : string;
  price : Z;
  change_24h : Z
}.

(** One candle ([PricePoint]): open timestamp, close time and the price
    fields touched by the live overlay. *)
Record PricePoint := mkPoint {
  timestamp : Z;
  close_time : Z;
  high : Z;
  low : Z;
  close : Z
}.

Inductive Period :=
  PERIOD_1MIN | PERIOD_15MIN | PERIOD_1HOUR | PERIOD_4HOUR
| PERIOD_1DAY | PERIOD_1WEEK | PERIOD_1MONTH.

Definition PERIOD_COUNT : Z := 7.

Definition period_to_Z (p : Period) : Z :=
  match p with
  | PERIOD_1MIN => 0 | PERIOD_15MIN => 1 | PERIOD_1HOUR => 2
  | PERIOD_4HOUR => 3 | PERIOD_1DAY => 4 | PERIOD_1WEEK => 5
  | PERIOD_1MONTH => 6
  end.

(** The cast [(Period)next], defined on [0 .. PERIOD_COUNT-1]. *)
Definition period_of_Z (z : Z) : Period :=
  match z with
  | 0 => PERIOD_1MIN | 1 => PERIOD_15MIN | 2 => PERIOD_1HOUR
  | 3 => PERIOD_4HOUR | 4 => PERIOD_1DAY | 5 => PERIOD_1WEEK
  | _ => PERIOD_1MONTH
  end.

(* ------------------------------------------------------------------ *)
(** ** Price board ([priceboard.c]) *)

Module Priceboard.

Inductive PriceboardSortField := SORT_FIELD_DEFAULT | SORT_FIELD_PRICE | SORT_FIELD_CHANGE.
Inductive PriceboardSortDirection := SORT_DIR_DESC | SORT_DIR_ASC.

Definition field_eqb (a b : PriceboardSortField) : bool :=
  match a, b with
  | SORT_FIELD_DEFAULT, SORT_FIELD_DEFAULT
  | SORT_FIELD_PRICE, SORT_FIELD_PRICE
  | SORT_FIELD_CHANGE, SORT_FIELD_CHANGE => true
  | _, _ => false
  end.

(** The two file-static variables [current_sort_field] and
    [current_sort_direction]. *)
Record SortState := mkSort {
  current_sort_field : PriceboardSortField;
  current_sort_direction : PriceboardSortDirection
}.

Definition initial_sort : SortState := mkSort SORT_FIELD_DEFAULT SORT_DIR_DESC.

(** A snapshot slot: [ticker_snapshot[i]] together with
    [ticker_snapshot_order[i]] (its original Config index); the two arrays
    are always swapped together. *)
Definition Row : Type := (TickerData * Z)%type.

Definition priceboard_sort_value (row : TickerData) (field : PriceboardSortField) : Z :=
  match field with
  | SORT_FIELD_PRICE => price row
  | SORT_FIELD_CHANGE => change_24h row
  | SORT_FIELD_DEFAULT => 0
  end.

Definition default_row : Row := (mkTicker EmptyString 0 0, 0).

Definition priceboard_compare_rows (st : SortState) (l : list Row) (left right : nat) : Z :=
  let '(lhs, lhs_origin) := nth left l default_row in
  let '(rhs, rhs_origin) := nth right l default_row in
  let lhs_val := priceboard_sort_value lhs (current_sort_field st) in
  let rhs_val := priceboard_sort_value rhs (current_sort_field st) in
  let result :=
    if lhs_val <? rhs_val then -1 else if lhs_val >? rhs_val then 1 else 0 in
  let result :=
    if result =? 0 then
      (if lhs_origin <? rhs_origin then -1
       else if lhs_origin >? rhs_origin then 1 else 0)
    else result in
  match current_sort_direction st with
  | SORT_DIR_DESC => - result
  | SORT_DIR_ASC => result
  end.

(** [priceboard_swap_rows] on adjacent slots [j] and [j+1]. *)
Fixpoint priceboard_swap_rows (j : nat) (l : list Row) : list Row :=
  match j, l with
  | O, a :: b :: t => b :: a :: t
  | S j', a :: t => a :: priceboard_swap_rows j' t
  | _, _ => l
  end.

(** The inner [while (j > 0 && compare(j-1, j) > 0) { swap; --j; }]. *)
Fixpoint insertion_sift (st : SortState) (j : nat) (l : list Row) : list Row :=
  match j with
  | O => l
  | S j' =>
      if priceboard_compare_rows st l j' j >? 0
      then insertion_sift st j' (priceboard_swap_rows j' l)
      else l
  end.

(** The outer [for (int i = 1; i < count; ++i)], run for [i = 1 .. n]. *)
Fixpoint insertion_outer (st : SortState) (n : nat) (l : list Row) : list Row :=
  match n with
  | O => l
  | S n' => insertion_sift st (S n') (insertion_outer st n' l)
  end.

Definition priceboard_apply_sort (st : SortState) (l : list Row) : list Row :=
  let count := List.length l in
  if (count <=? 1)%nat then l
  else match current_sort_field st with
       | SORT_FIELD_DEFAULT => l
       | _ => insertion_outer st (count - 1) l
       end.

(** [priceboard_render]'s snapshot step: copy the rows and reset the order
    map to the identity. *)
Fixpoint index_rows (i : Z) (ts : list TickerData) : list Row :=
  match ts with
  | [] => []
  | t :: ts' => (t, i) :: index_rows (i + 1) ts'
  end.

Definition priceboard_snapshot (global_tickers : list TickerData) : list Row :=
  index_rows 0 global_tickers.

Definition priceboard_cycle_sort (field : PriceboardSortField) (st : SortState) : SortState :=
  match field with
  | SORT_FIELD_PRICE =>
      if negb (field_eqb (current_sort_field st) SORT_FIELD_PRICE)
      then mkSort SORT_FIELD_PRICE SORT_DIR_DESC
      else match current_sort_direction st with
           | SORT_DIR_DESC => mkSort (current_sort_field st) SORT_DIR_ASC
           | SORT_DIR_ASC => mkSort SORT_FIELD_DEFAULT SORT_DIR_DESC
           end
  | SORT_FIELD_CHANGE =>
      if negb (field_eqb (current_sort_field st) SORT_FIELD_CHANGE)
      then mkSort SORT_FIELD_CHANGE SORT_DIR_DESC
      else match current_sort_direction st with
           | SORT_DIR_DESC => mkSort (current_sort_field st) SORT_DIR_ASC
           | SORT_DIR_ASC => mkSort SORT_FIELD_DEFAULT SORT_DIR_DESC
           end
  | SORT_FIELD_DEFAULT => st
  end.

(** The viewport block of [draw_main_screen] ([ui_priceboard.c]): returns the
    new [price_board_scroll_offset] from the old one. *)
Definition board_viewport (count visible_rows selected scroll_offset : Z) : Z :=
  if count <=? 0 then 0
  else
    let selected :=
      if selected <? 0 then 0
      else if selected >=? count then count - 1 else selected in
    let max_scroll := count - visible_rows in
    let max_scroll := if max_scroll <? 0 then 0 else max_scroll in
    let off := if scroll_offset >? max_scroll then max_scroll else scroll_offset in
    let off :=
      if selected <? off then selected
      else if selected >=? off + visible_rows then selected - visible_rows + 1
      else off in
    if off <? 0 then 0 else off.

(** The selected row after the clamp at the start of the same block. *)
Definition board_clamped_selected (count selected : Z) : Z :=
  if selected <? 0 then 0
  else if selected >=? count then count - 1 else selected.

End Priceboard.

(* ------------------------------------------------------------------ *)
(** ** Chart engine ([chart.c]) *)

Module Chart.

(** The external candle source [fetch_historical_data]: [Some pts] for
    [rc == 0], [None] for a failure. *)
Definition Fetcher : Type := string -> Period -> option (list PricePoint).

Definition is_empty_string (s : string) : bool :=
  match s with EmptyString => true | _ => false end.

(** The chart variables owned by [run_event_loop] and passed by pointer to
    the chart functions. The candle buffer [chart_points] carries its own
    [chart_count]. *)
Record ChartState := mkChart {
  chart_symbol : string;
  current_period : Period;
  chart_points : list PricePoint;
  chart_cursor_idx : Z;
  show_chart : bool;
  follow_latest : bool;
  chart_symbol_index : Z
}.

Definition chart_count (s : ChartState) : Z := Z.of_nat (List.length (chart_points s)).

Definition set_points_cursor (s : ChartState) (pts : list PricePoint) (cur : Z) : ChartState :=
  mkChart (chart_symbol s) (current_period s) pts cur
          (show_chart s) (follow_latest s) (chart_symbol_index s).

Definition set_cursor_follow (s : ChartState) (cur : Z) (f : bool) : ChartState :=
  mkChart (chart_symbol s) (current_period s) (chart_points s) cur
          (show_chart s) f (chart_symbol_index s).

Definition set_period (s : ChartState) (p : Period) : ChartState :=
  mkChart (chart_symbol s) p (chart_points s) (chart_cursor_idx s)
          (show_chart s) (follow_latest s) (chart_symbol_index s).

Definition set_show (s : ChartState) (b : bool) : ChartState :=
  mkChart (chart_symbol s) (current_period s) (chart_points s) (chart_cursor_idx s)
          b (follow_latest s) (chart_symbol_index s).

Definition default_point : PricePoint := mkPoint 0 0 0 0 0.

Definition point_at (pts : list PricePoint) (i : Z) : PricePoint :=
  nth (Z.to_nat i) pts default_point.

(** [chart_reload_data]: on success the new buffer replaces the old one;
    on failure the old buffer is kept. The boolean is [rc == 0]. *)
Definition chart_reload_data (fetch : Fetcher) (sym : string) (period : Period)
    (pts : list PricePoint) : bool * list PricePoint :=
  match fetch sym period with
  | Some new_points => (true, new_points)
  | None => (false, pts)
  end.

Definition chart_clamp_cursor (count cur : Z) : Z :=
  if count <=? 0 then -1
  else
    let cur := if cur >=? count then count - 1 else cur in
    if cur <? 0 then count - 1 else cur.

Fixpoint restore_from (i : Z) (pts : list PricePoint) (ts : Z) : Z :=
  match pts with
  | [] => -1
  | p :: pts' => if timestamp p =? ts then i else restore_from (i + 1) pts' ts
  end.

Definition chart_restore_cursor_by_timestamp (pts : list PricePoint) (count ts : Z) : Z :=
  if count <=? 0 then -1 else restore_from 0 pts ts.

(** [chart_change_period]; the boolean is whether [beep()] was called. *)
Definition chart_change_period (fetch : Fetcher) (step : Z) (s : ChartState)
    : ChartState * bool :=
  let old_period := current_period s in
  let next := period_to_Z old_period + step in
  let next := if next <? 0 then PERIOD_COUNT - 1
              else if next >=? PERIOD_COUNT then 0 else next in
  let p := period_of_Z next in
  match chart_reload_data fetch (chart_symbol s) p (chart_points s) with
  | (true, pts) =>
      (set_period (set_points_cursor s pts
         (chart_clamp_cursor (Z.of_nat (List.length pts)) (chart_cursor_idx s))) p, false)
  | (false, _) => (set_period s old_period, true)
  end.

(** [chart_open]. [ctx] is [None] when one of the context pointers is
    NULL, otherwise the shared ticker table. Returns the C result, the new
    state and whether [beep()] was called. [show_chart] is set by the
    caller on success. *)
Definition chart_open (ctx : option (list TickerData)) (fetch : Fetcher)
    (symbol_index : Z) (period : Period) (s : ChartState) : bool * ChartState * bool :=
  let s1 := mkChart (chart_symbol s) (current_period s) (chart_points s)
                    (chart_cursor_idx s) (show_chart s) (follow_latest s) (-1) in
  match ctx with
  | None => (false, s1, true)
  | Some tickers =>
      let n := Z.of_nat (List.length tickers) in
      if (n <=? 0) || (symbol_index <? 0) || (symbol_index >=? n) then (false, s1, true)
      else
        let sym := symbol (nth (Z.to_nat symbol_index) tickers (mkTicker EmptyString 0 0)) in
        let s2 := mkChart sym (current_period s) (chart_points s) (chart_cursor_idx s)
                          (show_chart s) (follow_latest s) symbol_index in
        match chart_reload_data fetch sym period (chart_points s) with
        | (true, pts) =>
            let c := Z.of_nat (List.length pts) in
            (true, set_points_cursor s2 pts (if c >? 0 then c - 1 else -1), false)
        | (false, _) => (false, s2, true)
        end
  end.

(** [chart_close] (which calls [chart_reset_state]). *)
Definition chart_close (s : ChartState) : ChartState :=
  mkChart EmptyString (current_period s) [] (-1) false (follow_latest s) (-1).

(** [chart_refresh_if_expired]; [now] is [time(NULL)]. *)
Definition chart_refresh_if_expired (fetch : Fetcher) (now : Z) (s : ChartState) : ChartState :=
  let pts := chart_points s in
  let count := chart_count s in
  let cur := chart_cursor_idx s in
  if is_empty_string (chart_symbol s) || (count <=? 0) then s
  else
    let last := point_at pts (count - 1) in
    if now <? close_time last then s
    else
      let retain_selection := (0 <=? cur) && (cur <? count) in
      let retained_ts := if retain_selection then timestamp (point_at pts cur) else 0 in
      let was_latest := if retain_selection then cur =? count - 1 else false in
      match chart_reload_data fetch (chart_symbol s) (current_period s) pts with
      | (false, _) => s
      | (true, npts) =>
          let n := Z.of_nat (List.length npts) in
          let cur' :=
            if n <=? 0 then -1
            else if negb retain_selection then (if n >? 0 then n - 1 else -1)
            else if was_latest then (if n >? 0 then n - 1 else -1)
            else
              let restored_idx := chart_restore_cursor_by_timestamp npts n retained_ts in
              if restored_idx >=? 0 then restored_idx
              else (if n >? 0 then n - 1 else -1) in
          set_points_cursor s npts cur'
      end.

(** [chart_force_refresh]; the boolean is whether [beep()] was called. *)
Definition chart_force_refresh (fetch : Fetcher) (s : ChartState) (follow : bool)
    : ChartState * bool :=
  let pts := chart_points s in
  let count := chart_count s in
  let cur := chart_cursor_idx s in
  if is_empty_string (chart_symbol s) then (s, false)
  else
    let retain_selection := (0 <=? cur) && (cur <? count) in
    let retained_ts := if retain_selection then timestamp (point_at pts cur) else 0 in
    match chart_reload_data fetch (chart_symbol s) (current_period s) pts with
    | (false, _) => (s, true)
    | (true, npts) =>
        let n := Z.of_nat (List.length npts) in
        let cur' :=
          if n <=? 0 then -1
          else if follow then n - 1
          else if negb retain_selection then n - 1
          else
            let restored_idx := chart_restore_cursor_by_timestamp npts n retained_ts in
            if restored_idx >=? 0 then restored_idx else n - 1 in
        (set_points_cursor s npts cur', false)
    end.

(** Input codes: the ncurses special keys the handlers test for, and plain
    characters by their code ([KeyChar 27] is Escape). *)
Inductive Key :=
| KEY_UP | KEY_DOWN | KEY_LEFT | KEY_RIGHT | KEY_ENTER | KEY_F5 | KEY_F6
| KeyChar (c : Z).

(** A mouse event: [x], [y] and the button groups tested on [bstate]
    ([b1]: BUTTON1 pressed/released/clicked, [b3] likewise for BUTTON3,
    [b4]/[b5]: wheel up/down). *)
Record MEVENT := mkEvent {
  ev_x : Z; ev_y : Z; ev_b1 : bool; ev_b3 : bool; ev_b4 : bool; ev_b5 : bool
}.

(** The chart layout cached by the last [draw_chart] ([ui_chart.c]). *)
Record ChartLayout := mkLayout {
  chart_view_start_x : Z;
  chart_view_stride : Z;
  chart_view_visible_points : Z;
  chart_view_start_idx : Z
}.

Definition ui_chart_hit_test_index (lay : ChartLayout) (mouse_x total_points : Z) : Z :=
  if total_points <=? 0 then -1
  else if (chart_view_visible_points lay <=? 0) || (chart_view_stride lay <=? 0) then -1
  else
    let chart_width_pixels := chart_view_visible_points lay * chart_view_stride lay in
    if (mouse_x <? chart_view_start_x lay)
       || (mouse_x >=? chart_view_start_x lay + chart_width_pixels) then -1
    else
      let col := (mouse_x - chart_view_start_x lay) / chart_view_stride lay in
      let idx := chart_view_start_idx lay + col in
      if (idx <? 0) || (idx >=? total_points) then -1 else idx.

Definition chart_handle_input (ch : Key) (fetch : Fetcher) (s : ChartState) : ChartState :=
  let count := chart_count s in
  let cur := chart_cursor_idx s in
  match ch with
  | KEY_UP => fst (chart_change_period fetch (-1) s)
  | KEY_DOWN => fst (chart_change_period fetch 1 s)
  | KEY_LEFT =>
      if cur >? 0 then set_cursor_follow s (chart_clamp_cursor count (cur - 1)) false
      else s
  | KEY_RIGHT =>
      if (cur >=? 0) && (cur <? count - 1)
      then set_cursor_follow s (chart_clamp_cursor count (cur + 1)) false
      else s
  | KeyChar c =>
      if (c =? 102) || (c =? 70) (* 'f' 'F' *) then
        let f := negb (follow_latest s) in
        if f && (count >? 0) then set_cursor_follow s (count - 1) f
        else set_cursor_follow s cur f
      else if (c =? 114) || (c =? 82) (* 'r' 'R' *) then
        fst (chart_force_refresh fetch s (follow_latest s))
      else if (c =? 113) || (c =? 81) || (c =? 27) (* 'q' 'Q' ESC *) then
        let s' := chart_close s in
        set_cursor_follow s' (chart_cursor_idx s') true
      else s
  | _ => s
  end.

Definition chart_handle_mouse (lay : ChartLayout) (fetch : Fetcher) (ev : MEVENT)
    (s : ChartState) : ChartState :=
  if ev_b3 ev then chart_handle_input (KeyChar 27) fetch s
  else if ev_b4 ev then fst (chart_change_period fetch (-1) s)
  else if ev_b5 ev then fst (chart_change_period fetch 1 s)
  else if ev_b1 ev then
    let idx := ui_chart_hit_test_index lay (ev_x ev) (chart_count s) in
    if idx >=? 0 then set_cursor_follow s (chart_clamp_cursor (chart_count s) idx) false
    else s
  else s.

(** The in-place patch of the last candle in [chart_apply_live_price]. *)
Fixpoint patch_last (p : Z) (pts : list PricePoint) : list PricePoint :=
  match pts with
  | [] => []
  | [last] =>
      let h := if p >? high last then p else high last in
      let lo := if (low last =? 0) || (p <? low last) then p else low last in
      [mkPoint (timestamp last) (close_time last) h lo p]
  | q :: pts' => q :: patch_last p pts'
  end.

(** [chart_apply_live_price] over the shared ticker table. *)
Definition chart_apply_live_price (tickers : list TickerData) (s : ChartState) : ChartState :=
  let sym := chart_symbol s in
  let idx := chart_symbol_index s in
  if is_empty_string sym || (chart_count s <=? 0) then s
  else
    let by_index :=
      if (0 <=? idx) && (idx <? Z.of_nat (List.length tickers)) then
        let t := nth (Z.to_nat idx) tickers (mkTicker EmptyString 0 0) in
        if String.eqb (symbol t) sym then Some t else None
      else None in
    let latest :=
      match by_index with
      | Some t => Some t
      | None => find (fun t => String.eqb (symbol t) sym) tickers
      end in
    match latest with
    | None => s
    | Some t =>
        if price t <=? 0 then s
        else set_points_cursor s (patch_last (price t) (chart_points s)) (chart_cursor_idx s)
    end.

End Chart.

(* ------------------------------------------------------------------ *)
(** ** Event loop ([run_event_loop] in [main.c], with the board handlers of
    [priceboard.c]) *)

Module EventLoop.
Import Priceboard Chart.

(** The board placement cached by the last [draw_main_screen]. *)
Record BoardView := mkBoardView {
  price_board_view_start_y : Z;
  price_board_view_rows : Z;
  price_board_scroll_offset : Z
}.

Definition ui_price_board_hit_test_row (bv : BoardView) (mouse_y total_rows : Z) : Z :=
  if total_rows <=? 0 then -1
  else if (mouse_y <? price_board_view_start_y bv)
          || (mouse_y >=? price_board_view_start_y bv + price_board_view_rows bv) then -1
  else
    let index := price_board_scroll_offset bv + (mouse_y - price_board_view_start_y bv) in
    if (index <? 0) || (index >=? total_rows) then -1 else index.

Definition priceboard_clamp_selected (count selected : Z) : Z :=
  if count <=? 0 then 0
  else if selected <? 0 then 0
  else if selected >? count - 1 then count - 1 else selected.

Definition priceboard_resolve_symbol_index (snap : list Row) (display_index : Z) : Z :=
  let count := Z.of_nat (List.length snap) in
  if (display_index <? 0) || (display_index >=? count) then -1
  else snd (nth (Z.to_nat display_index) snap default_row).

(** What the outside world supplies to one phase of a loop iteration: the
    shared ticker table as the fetcher left it, the candle source, the
    clock, and the renderer's cached layouts. *)
Record Env := mkEnv {
  env_tickers : list TickerData;
  env_fetch : Fetcher;
  env_now : Z;
  env_layout : ChartLayout;
  env_board : BoardView
}.

(** The locals of [run_event_loop] (the chart ones grouped in
    [ChartState]), the sort state, the board snapshot and the [running]
    flag. *)
Record View := mkView {
  chart : ChartState;
  selected : Z;
  sort : SortState;
  snapshot : list Row;
  running : bool
}.

Definition initial_view : View :=
  mkView (mkChart EmptyString PERIOD_1MIN [] (-1) false true (-1))
         0 initial_sort [] true.

Definition set_chart (v : View) (c : ChartState) : View :=
  mkView c (selected v) (sort v) (snapshot v) (running v).

(** The draw half of one iteration, up to (not including) the draw call. *)
Definition render_pass (env : Env) (v : View) : View :=
  let s := chart v in
  if show_chart s then
    let follow := follow_latest s
                  || ((chart_cursor_idx s >=? 0) && (chart_cursor_idx s =? chart_count s - 1)) in
    let s := chart_refresh_if_expired (env_fetch env) (env_now env) s in
    let s := chart_apply_live_price (env_tickers env) s in
    let s := if follow && (chart_count s >? 0)
             then set_cursor_follow s (chart_count s - 1) (follow_latest s) else s in
    set_chart v s
  else
    let tickers := env_tickers env in
    let sel := priceboard_clamp_selected (Z.of_nat (List.length tickers)) (selected v) in
    let snap := priceboard_apply_sort (sort v) (priceboard_snapshot tickers) in
    mkView (chart v) sel (sort v) snap (running v).

(** Board Enter / left-click: resolve the row and call [chart_open];
    [show_chart] is set only on success. *)
Definition board_open (env : Env) (sel : Z) (v : View) : View :=
  let symbol_index := priceboard_resolve_symbol_index (snapshot v) sel in
  match chart_open (Some (env_tickers env)) (env_fetch env) symbol_index
                   (current_period (chart v)) (chart v) with
  | (true, c, _) => mkView (set_show c true) sel (sort v) (snapshot v) (running v)
  | (false, c, _) => mkView c sel (sort v) (snapshot v) (running v)
  end.

Definition board_handle_input (ch : Key) (env : Env) (v : View) : View :=
  let count := Z.of_nat (List.length (snapshot v)) in
  let mk sel st r := mkView (chart v) sel st (snapshot v) r in
  match ch with
  | KEY_UP => mk (priceboard_clamp_selected count (selected v - 1)) (sort v) (running v)
  | KEY_DOWN => mk (priceboard_clamp_selected count (selected v + 1)) (sort v) (running v)
  | KEY_ENTER => board_open env (priceboard_clamp_selected count (selected v)) v
  | KeyChar c =>
      if (c =? 10) || (c =? 13) (* '\n' '\r' *) then
        board_open env (priceboard_clamp_selected count (selected v)) v
      else if (c =? 113) || (c =? 81) (* 'q' 'Q' *) then mk (selected v) (sort v) false
      else v
  | KEY_F5 => mk (selected v) (priceboard_cycle_sort SORT_FIELD_PRICE (sort v)) (running v)
  | KEY_F6 => mk (selected v) (priceboard_cycle_sort SORT_FIELD_CHANGE (sort v)) (running v)
  | _ => v
  end.

Definition board_handle_mouse (ev : MEVENT) (env : Env) (v : View) : View :=
  let count := Z.of_nat (List.length (snapshot v)) in
  let mk sel := mkView (chart v) sel (sort v) (snapshot v) (running v) in
  if ev_b4 ev then mk (priceboard_clamp_selected count (selected v - 1))
  else if ev_b5 ev then mk (priceboard_clamp_selected count (selected v + 1))
  else if ev_b1 ev then
    let row := ui_price_board_hit_test_row (env_board env) (ev_y ev) count in
    if row <? 0 then v
    else board_open env (priceboard_clamp_selected count row) v
  else v.

Inductive Input := InputNone | InputKey (k : Key) | InputMouse (ev : MEVENT).

(** The input half of one iteration. *)
Definition dispatch (env : Env) (inp : Input) (v : View) : View :=
  match inp with
  | InputNone => v
  | InputMouse ev =>
      if show_chart (chart v)
      then set_chart v (chart_handle_mouse (env_layout env) (env_fetch env) ev (chart v))
      else board_handle_mouse ev env v
  | InputKey k =>
      if show_chart (chart v)
      then set_chart v (chart_handle_input k (env_fetch env) (chart v))
      else board_handle_input k env v
  end.

Definition loop_iteration (env_draw env_input : Env) (inp : Input) (v : View) : View :=
  if running v then dispatch env_input inp (render_pass env_draw v) else v.

Inductive reachable : View -> Prop :=
| reach_init : reachable initial_view
| reach_step v e1 e2 inp : reachable v -> reachable (loop_iteration e1 e2 inp v).

End EventLoop.

(* ------------------------------------------------------------------ *)
(** ** Fetcher ([fetcher.c]) *)

Module Fetcher.

Inductive StatusPanelState :=
  STATUS_PANEL_FETCHING | STATUS_PANEL_NORMAL | STATUS_PANEL_NETWORK_ERROR.

(** [fetch_ticker_data symbol &scratch[i]]: whether [rc == 0], and the
    contents of the scratch slot afterwards (a failed call may have written
    part of it). *)
Definition TickerFetch : Type := string -> TickerData -> bool * TickerData.

(** The loop of [fetch_all_symbols] from index [i]; [running j] is the value
    of [runtime_is_running()] when it is checked before iteration [j]. *)
Fixpoint fetch_all_from (fetch : TickerFetch) (running : nat -> bool) (i : nat)
    (syms : list string) (scratch : list TickerData) (updated : list bool)
    (had_failure : bool) : list TickerData * list bool * bool :=
  match syms, scratch, updated with
  | s :: syms', d :: scratch', u :: updated' =>
      if running i then
        let '(ok, d') := fetch s d in
        let '(sc, up, hf) :=
          fetch_all_from fetch running (S i) syms' scratch' updated'
                         (if ok then had_failure else true) in
        (d' :: sc, (if ok then true else u) :: up, hf)
      else (scratch, updated, had_failure)
  | _, _, _ => (scratch, updated, had_failure)
  end.

Definition fetch_all_symbols (fetch : TickerFetch) (running : nat -> bool)
    (syms : list string) (scratch : list TickerData) (updated : list bool)
    : list TickerData * list bool * bool :=
  fetch_all_from fetch running 0 syms scratch updated false.

Fixpoint apply_updated_tickers (globals scratch : list TickerData) (updated : list bool)
    : list TickerData :=
  match globals, scratch, updated with
  | g :: gs, d :: ds, u :: us => (if u then d else g) :: apply_updated_tickers gs ds us
  | _, _, _ => globals
  end.

(** One iteration of [fetcher_thread_main]'s loop: clear the bitmap, fetch,
    publish, set the status. Returns the shared table, the scratch buffer
    and the status. *)
Definition fetcher_cycle (fetch : TickerFetch) (running : nat -> bool)
    (syms : list string) (scratch globals : list TickerData)
    : list TickerData * list TickerData * StatusPanelState :=
  let updated := repeat false (List.length syms) in
  let '(scratch', updated', had_failure) :=
    fetch_all_symbols fetch running syms scratch updated in
  let globals' := apply_updated_tickers globals scratch' updated' in
  (globals', scratch',
   if had_failure then STATUS_PANEL_NETWORK_ERROR else STATUS_PANEL_NORMAL).

(** Whether symbol [i] of a loop started at index [k] was fetched: the
    running flag was still set at iterations [k .. k+i]. *)
Definition attempted_from (running : nat -> bool) (k i : nat) : bool :=
  forallb running (seq k (S i)).

Definition default_ticker : TickerData := mkTicker EmptyString 0 0.

End Fetcher.

(* ------------------------------------------------------------------ *)
(** ** Chart invariants and transitions *)

Module ChartSpec.
Import Chart.

(** The cursor invariant for a buffer of [n] candles. *)
Definition pc_inv (n cur : Z) : Prop := -1 <= cur < n /\ (cur = -1 <-> n = 0).

Definition cursor_inv (s : ChartState) : Prop := pc_inv (chart_count s) (chart_cursor_idx s).

(** Every way the chart variables change: open (with [show_chart] set by
    the caller on success), close, a key, a mouse event, a period change, a
    forced or expiry refresh, the live overlay, and a render pass of the
    event loop. *)
Inductive chart_op : ChartState -> ChartState -> Prop :=
| op_open ctx fetch i p s :
    chart_op s (match chart_open ctx fetch i p s with
                | (true, s', _) => set_show s' true
                | (false, s', _) => s'
                end)
| op_close s : chart_op s (chart_close s)
| op_key k fetch s : chart_op s (chart_handle_input k fetch s)
| op_mouse lay fetch ev s : chart_op s (chart_handle_mouse lay fetch ev s)
| op_period fetch step s : chart_op s (fst (chart_change_period fetch step s))
| op_force fetch s f : chart_op s (fst (chart_force_refresh fetch s f))
| op_refresh fetch now s : chart_op s (chart_refresh_if_expired fetch now s)
| op_live tickers s : chart_op s (chart_apply_live_price tickers s)
| op_render env v : chart_op (EventLoop.chart v) (EventLoop.chart (EventLoop.render_pass env v)).

End ChartSpec.

(* ------------------------------------------------------------------ *)
(** ** Sorting order, stated on pairs of rows *)

Module SortSpec.
Import Priceboard.

(** [priceboard_compare_rows] on two given rows. *)
Definition row_cmp (st : SortState) (a b : Row) : Z :=
  priceboard_compare_rows st [a; b] 0 1.

(** Inserting [x] into a reversed prefix, as the inner [while] loop of
    [priceboard_apply_sort] does from the right end of the prefix. *)
Fixpoint ins_rev (st : SortState) (x : Row) (r : list Row) : list Row :=
  match r with
  | [] => [x]
  | y :: r' => if row_cmp st y x >? 0 then y :: ins_rev st x r' else x :: r
  end.

(** [b] may follow [a] in the reversed sorted prefix: the comparator does
    not put [a] after [b]. *)
Definition rev_le (st : SortState) (a b : Row) : Prop := row_cmp st b a <= 0.

End SortSpec.

(* ------------------------------------------------------------------ *)
(** ** Sort hints ([priceboard_next_sort_hint] in [priceboard.c]) *)

Module PriceboardHint.
Import Priceboard.

Definition priceboard_next_sort_hint (field : PriceboardSortField) (st : SortState) : string :=
  match field with
  | SORT_FIELD_PRICE =>
      if negb (field_eqb (current_sort_field st) SORT_FIELD_PRICE) then "↓"
      else match current_sort_direction st with
           | SORT_DIR_DESC => "↑"
           | SORT_DIR_ASC => "="
           end
  | SORT_FIELD_CHANGE =>
      if negb (field_eqb (current_sort_field st) SORT_FIELD_CHANGE) then "↓"
      else match current_sort_direction st with
           | SORT_DIR_DESC => "↑"
           | SORT_DIR_ASC => "="
           end
  | SORT_FIELD_DEFAULT => "="
  end%string.

End PriceboardHint.

(* ------------------------------------------------------------------ *)
(** ** Screen geometry ([draw_main_screen] in [ui_priceboard.c],
    [draw_chart] in [ui_chart.c]) *)

Module Geometry.
Import Chart.

(** [draw_main_screen]: the board starts at screen row 4, one row is kept
    for the footer, and ticker [i] of the viewport is drawn on row
    [board_start_y + (i - price_board_scroll_offset)]. *)
Definition board_start_y : Z := 4.

Definition board_visible_rows (lines : Z) : Z :=
  let max_board_height := lines - 1 - board_start_y in
  if max_board_height <? 1 then 1 else max_board_height.

Definition board_row_in_view (scroll_offset visible_rows i : Z) : bool :=
  (scroll_offset <=? i) && (i <? scroll_offset + visible_rows).

Definition board_row_y (scroll_offset i : Z) : Z := board_start_y + (i - scroll_offset).

(** [draw_chart]: the drawing area starts after the 12-column axis, and
    its width is what is left of the terminal after the candle info box. *)
Definition axis_width : Z := 12.
Definition chart_x : Z := axis_width + 2.
Definition candle_stride : Z := 2.

Definition chart_width_of (cols : Z) : Z :=
  let available_width := cols - chart_x - 2 in
  let available_width := if available_width <? 1 then 1 else available_width in
  let info_gap := 2 in
  let preferred_info_width := 37 in
  let min_info_width := 23 in
  let info_width := preferred_info_width in
  let max_width_share := (available_width * 2) / 3 in
  let info_width := if info_width >? max_width_share then max_width_share else info_width in
  let info_width := if info_width <? min_info_width then min_info_width else info_width in
  let info_width := if info_width >? available_width - info_gap - 1
                    then available_width - info_gap - 1 else info_width in
  let info_width := if info_width <? min_info_width
                    then (if available_width >? min_info_width then min_info_width
                          else available_width / 2)
                    else info_width in
  let '(info_width, info_gap) := if info_width <? 10 then (0, 0) else (info_width, info_gap) in
  let chart_width := available_width - info_width - info_gap in
  if chart_width <? 1 then 1 else chart_width.

Definition chart_visible_points (cols : Z) : Z :=
  let visible_points := chart_width_of cols / candle_stride in
  if visible_points <? 1 then 1 else visible_points.

(** The first visible candle, from the previous layout's visible count,
    total and start index. *)
Definition chart_view_start (count visible_points prev_visible prev_total prev_start
                             selected_index : Z) : Z :=
  let viewport_changed := negb (prev_visible =? visible_points) || negb (prev_total =? count) in
  let start_idx := prev_start in
  let start_idx :=
    if viewport_changed || (start_idx <? 0) || (start_idx >=? count)
    then (if count >? visible_points then count - visible_points else 0)
    else start_idx in
  let start_idx :=
    if selected_index <? start_idx then selected_index
    else if selected_index >=? start_idx + visible_points
    then selected_index - visible_points + 1
    else start_idx in
  let start_idx := if start_idx <? 0 then 0 else start_idx in
  let start_idx := if start_idx >? count - 1 then count - 1 else start_idx in
  let start_idx := if start_idx + visible_points >? count then count - visible_points
                   else start_idx in
  if start_idx <? 0 then 0 else start_idx.

(** The layout [draw_chart] caches for the hit test; with no candles it
    returns before touching it. [prev_total] is the cached
    [chart_view_total_points]. *)
Definition draw_chart_layout (cols count selected_index prev_total : Z) (prev : ChartLayout)
    : ChartLayout :=
  if count =? 0 then prev
  else
    let visible_points := chart_visible_points cols in
    mkLayout chart_x candle_stride visible_points
             (chart_view_start count visible_points (chart_view_visible_points prev)
                               prev_total (chart_view_start_idx prev) selected_index).

(** Candle [start + i] is drawn at column [chart_x + i * candle_stride]
    for [0 <= i < visible_points] and [start + i < count]. *)
Definition candle_x (i : Z) : Z := chart_x + i * candle_stride.

End Geometry.

(* ------------------------------------------------------------------ *)
(** ** Text helpers ([ui_format.c], [config.c]) *)

Module Text.

(** A C character array's contents up to its terminating NUL. *)
Fixpoint cstr (l : list ascii) : list ascii :=
  match l with
  | [] => []
  | c :: l' => if Ascii.eqb c Ascii.zero then [] else c :: cstr l'
  end.

(** [strchr(s, '.')]: the characters before the first dot and, when there
    is one, those after it. *)
Fixpoint split_at_dot (s : list ascii) : list ascii * option (list ascii) :=
  match s with
  | [] => ([], None)
  | c :: s' =>
      if Ascii.eqb c "." then ([], Some s')
      else let '(ip, d) := split_at_dot s' in (c :: ip, d)
  end.

(** The integer-part loop of [insert_commas]; [out] is what has been
    written, [cap] is [dest_size - 1]. *)
Fixpoint commas_int_loop (ip : list ascii) (cap : nat) (out : list ascii) : list ascii :=
  match ip with
  | [] => out
  | c :: ip' =>
      if (List.length out <? cap)%nat then
        let out := out ++ [c] in
        let remaining := List.length ip' in
        if (0 <? remaining)%nat && (remaining mod 3 =? 0)%nat && (List.length out <? cap)%nat
        then commas_int_loop ip' cap (out ++ [","%char])
        else commas_int_loop ip' cap out
      else out
  end.

(** The fraction loop [while (frac is not at its NUL and out < dest_size - 1)]. *)
Fixpoint copy_loop (s : list ascii) (cap : nat) (out : list ascii) : list ascii :=
  match s with
  | [] => out
  | c :: s' => if (List.length out <? cap)%nat then copy_loop s' cap (out ++ [c]) else out
  end.

(** [insert_commas(src, dest, dest_size)]: the string written to [dest],
    or [None] when [dest_size == 0] and nothing is written. *)
Definition insert_commas (src : list ascii) (dest_size : nat) : option (list ascii) :=
  match dest_size with
  | O => None
  | S cap =>
      let '(negative, start) :=
        match src with
        | c :: t => if Ascii.eqb c "-" then (true, t) else (false, src)
        | [] => (false, src)
        end in
      let out := if negative && (0 <? cap)%nat then ["-"%char] else [] in
      let '(ip, dot) := split_at_dot start in
      let out := commas_int_loop ip cap out in
      match dot with
      | Some frac =>
          if (List.length out <? cap)%nat then Some (copy_loop frac cap (out ++ ["."%char]))
          else Some out
      | None => Some out
      end
  end.

(** The backward scan of [ui_trim_trailing_zeros] over the characters after
    the dot, read from the end. *)
Fixpoint drop_zeros_rev (r : list ascii) : list ascii :=
  match r with
  | c :: r' => if Ascii.eqb c "0" then drop_zeros_rev r' else r
  | [] => []
  end.

Definition ui_trim_trailing_zeros (buf : list ascii) : list ascii :=
  match split_at_dot buf with
  | (_, None) => buf
  | (ip, Some frac) =>
      match rev (drop_zeros_rev (rev frac)) with
      | [] => ip
      | frac' => ip ++ "."%char :: frac'
      end
  end.

(** [isspace] in the C locale: space, and tab through carriage return. *)
Definition isspace (c : ascii) : bool :=
  let n := nat_of_ascii c in (n =? 32)%nat || ((9 <=? n)%nat && (n <=? 13)%nat).

Fixpoint trim_leading (s : list ascii) : list ascii :=
  match s with
  | c :: s' => if isspace c then trim_leading s' else s
  | [] => []
  end.

(** The [end > str] scan from the last character back; it never removes
    the first character. *)
Fixpoint drop_space_rev (r : list ascii) : list ascii :=
  match r with
  | [] => []
  | [c] => [c]
  | c :: r' => if isspace c then drop_space_rev r' else r
  end.

Definition trim_whitespace (s : list ascii) : list ascii :=
  match trim_leading s with
  | [] => []
  | t => rev (drop_space_rev (rev t))
  end.

(** A character other than the thousands separator. *)
Definition not_comma (c : ascii) : bool := negb (Ascii.eqb c ","%char).

End Text.

(* ------------------------------------------------------------------ *)
(** ** Configuration file ([config.c]) *)

Module ConfigFile.
Import Text.

Definition MAX_SYMBOLS : nat := 50.
Definition MAX_SYMBOL_LEN : nat := 20.
Definition newline : ascii := ascii_of_nat 10.

(** [fgets] into a buffer of [n + 1] bytes: at most [n] characters, up to
    and including a newline; the rest of the file. *)
Fixpoint fgets_chunk (n : nat) (s : list ascii) : list ascii * list ascii :=
  match n, s with
  | O, _ => ([], s)
  | S _, [] => ([], [])
  | S n', c :: s' =>
      if Ascii.eqb c newline then ([c], s')
      else let '(l, r) := fgets_chunk n' s' in (c :: l, r)
  end.

(** The read loop of [load_config] over the file contents [s]
    ([fgets(line, MAX_SYMBOL_LEN + 2, fp)], which returns NULL at end of
    file). [fuel] bounds the iterations; each one consumes a character. *)
Fixpoint load_lines (fuel : nat) (s : list ascii) (symbols : list (list ascii))
    : list (list ascii) :=
  match fuel with
  | O => symbols
  | S fuel' =>
      match s with
      | [] => symbols
      | _ =>
          let '(line, rest) := fgets_chunk (MAX_SYMBOL_LEN + 1) s in
          if (List.length symbols <? MAX_SYMBOLS)%nat then
            let trimmed := trim_whitespace (cstr line) in
            if (List.length trimmed =? 0)%nat
               || match trimmed with c :: _ => Ascii.eqb c "#" | [] => false end
            then load_lines fuel' rest symbols
            else load_lines fuel' rest (symbols ++ [firstn (MAX_SYMBOL_LEN - 1) trimmed])
          else symbols
      end
  end.

Definition default_symbols : list (list ascii) :=
  [list_ascii_of_string "BTCUSDT"; list_ascii_of_string "ETHUSDT";
   list_ascii_of_string "BNBUSDT"].

(** [load_config]: [None] when the file cannot be opened (the default
    watch list is used), otherwise the file's contents. *)
Definition load_config (file : option (list ascii)) : list (list ascii) :=
  match file with
  | None => default_symbols
  | Some s => load_lines (List.length s) s []
  end.

(** The contents [save_config] writes: each symbol followed by a newline. *)
Definition save_config (symbols : list (list ascii)) : list ascii :=
  List.concat (map (fun sym => cstr sym ++ [newline]) symbols).

End ConfigFile.

(* ------------------------------------------------------------------ *)
(** ** Sample inputs *)

Module Samples.
Import Chart.

Definition btc : TickerData := mkTicker "BTCUSDT" 100 1.
Definition eth : TickerData := mkTicker "ETHUSDT" 100 2.
Definition bnb : TickerData := mkTicker "BNBUSDT" 75 3.

(** A one-minute candle opening at [ts]. *)
Definition pt (ts : Z) : PricePoint := mkPoint ts (ts + 60) 100 90 95.

(** Scenario D: five one-minute candles, cursor on the third (open time
    120); the 15-minute refetch has that open time at index 0. *)
Definition chart_D : ChartState :=
  mkChart "BTCUSDT" PERIOD_1MIN [pt 0; pt 60; pt 120; pt 180; pt 240] 2 true false 0.

Definition fetch_D : Fetcher := fun _ p =>
  match p with
  | PERIOD_15MIN => Some [pt 120; pt 1020; pt 1920; pt 2820; pt 3720]
  | _ => None
  end.

(** Two candles, cursor on the last one; the reload appends a new candle. *)
Definition chart_R (cur : Z) : ChartState :=
  mkChart "BTCUSDT" PERIOD_1MIN [pt 0; pt 60] cur true false 0.

Definition fetch_R : Fetcher := fun _ _ => Some [pt 60; pt 120].

Definition fetch_fail : Fetcher := fun _ _ => None.

Definition closed_chart : ChartState :=
  mkChart EmptyString PERIOD_1MIN [] (-1) false true (-1).

Definition env0 : EventLoop.Env :=
  EventLoop.mkEnv [btc] fetch_R 0 (mkLayout 0 1 0 0) (EventLoop.mkBoardView 4 10 0).

(** An open chart in follow-latest mode with the cursor on the first of two
    candles that have not expired at time 0. *)
Definition view_follow : EventLoop.View :=
  EventLoop.mkView (mkChart "BTCUSDT" PERIOD_1MIN [pt 0; pt 60] 0 true true 0)
                   0 Priceboard.initial_sort [] true.

End Samples.

(* ================================================================== *)
(** * Properties *)

(** Case analysis on every boolean [Z] comparison in the goal and the
    hypotheses, turning each into its arithmetic meaning. *)
Ltac zbool_cases :=
  repeat match goal with
  | |- context [if ?c then _ else _] =>
      lazymatch c with
      | context [if _ then _ else _] => fail
      | context [Z.ltb] => destruct c eqn:?
      | context [Z.leb] => destruct c eqn:?
      | context [Z.gtb] => destruct c eqn:?
      | context [Z.geb] => destruct c eqn:?
      | context [Z.eqb] => destruct c eqn:?
      end; cbv beta iota zeta
  end;
  repeat match goal with
  | H : (_ <? _) = true |- _ => apply Z.ltb_lt in H
  | H : (_ <? _) = false |- _ => apply Z.ltb_ge in H
  | H : (_ <=? _) = true |- _ => apply Z.leb_le in H
  | H : (_ <=? _) = false |- _ => apply Z.leb_gt in H
  | H : (_ >? _) = true |- _ => rewrite Z.gtb_ltb in H; apply Z.ltb_lt in H
  | H : (_ >? _) = false |- _ => rewrite Z.gtb_ltb in H; apply Z.ltb_ge in H
  | H : (_ >=? _) = true |- _ => rewrite Z.geb_leb in H; apply Z.leb_le in H
  | H : (_ >=? _) = false |- _ => rewrite Z.geb_leb in H; apply Z.leb_gt in H
  | H : (_ =? _) = true |- _ => apply Z.eqb_eq in H
  | H : (_ =? _) = false |- _ => apply Z.eqb_neq in H
  end.

Module PriceboardFacts.
Import Priceboard Samples.

(** Scenario B of the spec: prices [100, 50, 75], one press of the price
    hot-key sorts descending. *)
Example scenario_B :
  map (fun r => symbol (fst r))
      (priceboard_apply_sort (priceboard_cycle_sort SORT_FIELD_PRICE initial_sort)
         (priceboard_snapshot [mkTicker "BTCUSDT" 100 0; mkTicker "ETHUSDT" 50 0;
                               mkTicker "BNBUSDT" 75 0]))
  = ["BTCUSDT"; "BNBUSDT"; "ETHUSDT"]%string.
Proof. reflexivity. Qed.

(** Ascending sort keeps equal prices in Config order. *)
Example asc_ties_in_config_order :
  map snd (priceboard_apply_sort (mkSort SORT_FIELD_PRICE SORT_DIR_ASC)
             (priceboard_snapshot [btc; eth; bnb])) = [2; 0; 1].
Proof. reflexivity. Qed.

(** C1 (code_bug). With the price sort active in the descending direction,
    two rows of equal price (BTCUSDT at Config index 0, ETHUSDT at index 1)
    come out in descending Config order [1, 0]: the comparator negates the
    Config-index tie-break together with the value comparison. *)
Theorem sort_desc_reverses_ties :
  map snd (priceboard_apply_sort (mkSort SORT_FIELD_PRICE SORT_DIR_DESC)
             (priceboard_snapshot [btc; eth])) = [1; 0].
Proof. vm_compute. reflexivity. Qed.

(** C7. For a non-empty board and at least one visible row, whatever the
    previous scroll offset and requested selection, the new offset keeps the
    clamped selection on screen and lies in [0, max(0, count - visibleRows)]. *)
Theorem viewport_invariant (count visible_rows selected scroll_offset : Z) :
  0 < count -> 1 <= visible_rows ->
  let sel := board_clamped_selected count selected in
  let off := board_viewport count visible_rows selected scroll_offset in
  0 <= sel < count /\
  off <= sel < off + visible_rows /\
  0 <= off <= Z.max 0 (count - visible_rows).
Proof.
  intros Hc Hv sel off. subst sel off.
  unfold board_clamped_selected, board_viewport; cbv zeta.
  zbool_cases; lia.
Qed.

Lemma viewport_invariant_witness :
  0 < 10 /\ 1 <= 4 /\
  (let sel := board_clamped_selected 10 7 in
   let off := board_viewport 10 4 7 2 in
   0 <= sel < 10 /\ off <= sel < off + 4 /\ 0 <= off <= Z.max 0 (10 - 4)).
Proof.
  split; [lia | split; [lia | apply (viewport_invariant 10 4 7 2); lia]].
Defined.

(** C8 counterexample: with the change sort active, one press of the price
    hot-key deactivates the change sort. *)
Lemma cycle_sort_deactivates_other :
  current_sort_field (mkSort SORT_FIELD_CHANGE SORT_DIR_DESC) = SORT_FIELD_CHANGE /\
  current_sort_field (priceboard_cycle_sort SORT_FIELD_PRICE
                        (mkSort SORT_FIELD_CHANGE SORT_DIR_DESC)) <> SORT_FIELD_CHANGE.
Proof. split; [reflexivity | discriminate]. Qed.

(** C8 (amended). For a sort field [f] (price or change): a press makes [f]
    active-Desc when it was not the active field, active-Asc when it was
    active-Desc, and inactive (Config order) when it was active-Asc; three
    presses from an inactive [f] leave no field active; and after a press
    the active field is [f] or none: the other field is never made active,
    and it stops being active when [f] is selected. *)
Theorem cycle_sort_cycles (f : PriceboardSortField) (st : SortState) :
  f <> SORT_FIELD_DEFAULT ->
  (current_sort_field st <> f ->
     priceboard_cycle_sort f st = mkSort f SORT_DIR_DESC) /\
  (current_sort_field st = f -> current_sort_direction st = SORT_DIR_DESC ->
     priceboard_cycle_sort f st = mkSort f SORT_DIR_ASC) /\
  (current_sort_field st = f -> current_sort_direction st = SORT_DIR_ASC ->
     priceboard_cycle_sort f st = mkSort SORT_FIELD_DEFAULT SORT_DIR_DESC) /\
  (current_sort_field st <> f ->
     priceboard_cycle_sort f (priceboard_cycle_sort f (priceboard_cycle_sort f st))
     = mkSort SORT_FIELD_DEFAULT SORT_DIR_DESC) /\
  (current_sort_field (priceboard_cycle_sort f st) = f \/
   current_sort_field (priceboard_cycle_sort f st) = SORT_FIELD_DEFAULT).
Proof.
  intros Hf. destruct st as [fld dir].
  destruct f; [congruence | |]; destruct fld, dir; simpl;
    repeat split; intros; try congruence; auto.
Qed.

Lemma cycle_sort_cycles_witness :
  SORT_FIELD_PRICE <> SORT_FIELD_DEFAULT /\
  priceboard_cycle_sort SORT_FIELD_PRICE
    (priceboard_cycle_sort SORT_FIELD_PRICE
       (priceboard_cycle_sort SORT_FIELD_PRICE initial_sort))
  = mkSort SORT_FIELD_DEFAULT SORT_DIR_DESC.
Proof.
  split; [discriminate |].
  apply (cycle_sort_cycles SORT_FIELD_PRICE initial_sort); [discriminate | discriminate].
Defined.

End PriceboardFacts.

Module ChartFacts.
Import Chart ChartSpec Samples.

(** Scenario C of the spec: a live price of 105 over a last candle with
    high 102 and close 100 raises the high and sets the close. *)
Example scenario_C :
  let s := mkChart "BTCUSDT" PERIOD_1MIN [mkPoint 0 60 102 90 100] 0 true true 0 in
  chart_points (chart_apply_live_price [mkTicker "BTCUSDT" 105 0] s)
  = [mkPoint 0 60 105 90 105].
Proof. reflexivity. Qed.

(** C2 counterexample (scenario D): the cursor is on the candle opening at
    120, the refetch for the next period has that candle at index 0, and
    after the period change the cursor is still 2, not 0. *)
Lemma period_change_keeps_index :
  timestamp (point_at (chart_points chart_D) (chart_cursor_idx chart_D)) = 120 /\
  option_map (fun l => timestamp (point_at l 0)) (fetch_D "BTCUSDT"%string PERIOD_15MIN)
    = Some 120 /\
  chart_count (fst (chart_change_period fetch_D 1 chart_D)) = 5 /\
  chart_cursor_idx (fst (chart_change_period fetch_D 1 chart_D)) = 2.
Proof. vm_compute. repeat split. Qed.

(** C2 (amended). After a successful period change the cursor is the old
    cursor clamped into the new buffer ([chart_clamp_cursor]): it keeps its
    index when that index is still in range, and no timestamp lookup is
    made. *)
Theorem period_change_clamps_cursor (fetch : Fetcher) (step : Z) (s : ChartState) :
  snd (chart_change_period fetch step s) = false ->
  let s' := fst (chart_change_period fetch step s) in
  chart_cursor_idx s' = chart_clamp_cursor (chart_count s') (chart_cursor_idx s) /\
  (0 <= chart_cursor_idx s < chart_count s' -> chart_cursor_idx s' = chart_cursor_idx s).
Proof.
  unfold chart_change_period, chart_reload_data.
  destruct (fetch _ _) as [pts|]; simpl; [|discriminate].
  intros _. split; [reflexivity|].
  unfold chart_clamp_cursor, chart_count. simpl. intros H.
  zbool_cases; lia.
Qed.

Lemma period_change_clamps_cursor_witness :
  snd (chart_change_period fetch_D 1 chart_D) = false /\
  chart_cursor_idx (fst (chart_change_period fetch_D 1 chart_D))
  = chart_clamp_cursor (chart_count (fst (chart_change_period fetch_D 1 chart_D)))
                       (chart_cursor_idx chart_D).
Proof.
  split; [reflexivity|].
  exact (proj1 (period_change_clamps_cursor fetch_D 1 chart_D eq_refl)).
Defined.

Lemma restore_from_spec (pts : list PricePoint) (ts : Z) :
  forall i,
  (restore_from i pts ts = -1 /\ forall p, In p pts -> timestamp p <> ts) \/
  (exists k, restore_from i pts ts = i + Z.of_nat k /\ (k < List.length pts)%nat /\
     timestamp (nth k pts default_point) = ts /\
     forall k', (k' < k)%nat -> timestamp (nth k' pts default_point) <> ts).
Proof.
  induction pts as [|p pts IH]; intros i; simpl.
  - left. split; [reflexivity | tauto].
  - destruct (timestamp p =? ts) eqn:E.
    + right. exists 0%nat. apply Z.eqb_eq in E. repeat split; try lia; auto.
    + apply Z.eqb_neq in E. destruct (IH (i + 1)) as [[H1 H2]|(k & H1 & H2 & H3 & H4)].
      * left. split; [exact H1|]. intros q [<-|Hq]; auto.
      * right. exists (S k). split; [rewrite H1; lia|]. split; [lia|]. split; [exact H3|].
        intros [|k'] Hk; [exact E | apply H4; lia].
Qed.

Lemma restore_first_spec (pts : list PricePoint) (ts : Z) :
  let r := chart_restore_cursor_by_timestamp pts (Z.of_nat (List.length pts)) ts in
  (r = -1 /\ forall p, In p pts -> timestamp p <> ts) \/
  (0 <= r < Z.of_nat (List.length pts) /\ timestamp (point_at pts r) = ts /\
   forall k, 0 <= k < r -> timestamp (point_at pts k) <> ts).
Proof.
  intros r. unfold r, chart_restore_cursor_by_timestamp.
  destruct (Z.of_nat (List.length pts) <=? 0) eqn:E.
  - left. split; [reflexivity|]. apply Z.leb_le in E.
    destruct pts; [contradiction | simpl in E; lia].
  - destruct (restore_from_spec pts ts 0) as [H|(k & H1 & H2 & H3 & H4)]; [left; exact H|].
    right. rewrite H1. unfold point_at. simpl.
    split; [lia|]. split; [rewrite Nat2Z.id; exact H3|].
    intros k' Hk'. apply H4. lia.
Qed.

(** C3 counterexample: the cursor is on the last of two candles (open time
    60), follow-latest is off, the buffer has expired, and the reload appends
    a candle. The expiry refresh snaps to the new last candle (index 1); the
    force refresh restores the candle opening at 60 (index 0). *)
Lemma force_refresh_differs_from_expiry :
  close_time (point_at (chart_points (chart_R 1)) 1) <= 1000 /\
  chart_cursor_idx (chart_refresh_if_expired fetch_R 1000 (chart_R 1)) = 1 /\
  chart_cursor_idx (fst (chart_force_refresh fetch_R (chart_R 1) false)) = 0.
Proof. vm_compute. repeat split; discriminate. Qed.

(** C3 (amended). The force refresh reloads whenever a chart symbol is set
    (no expiry test). After a successful reload it takes the new buffer and
    does not beep. With follow-latest on, it selects the last candle. With
    follow-latest off and a candle selected, it restores the selected candle
    by timestamp: it selects the first new candle with the selected
    candle's open time, or the last candle when there is none; with no
    candle selected it selects the last candle. On an expired buffer with
    the selection before the last candle this is the candle the expiry
    refresh selects. When the last candle was selected, the expiry refresh
    snaps to the new last candle, while the force refresh (follow-latest
    off) does not whenever that candle's open time occurs before the new
    last candle. On a failed reload the force refresh beeps and the expiry
    refresh is silent; both leave the state unchanged. *)
Theorem force_refresh_vs_expiry_refresh :
  (forall (fetch : Fetcher) (now : Z) (s : ChartState) (npts : list PricePoint) (f : bool),
     is_empty_string (chart_symbol s) = false ->
     fetch (chart_symbol s) (current_period s) = Some npts ->
     chart_points (fst (chart_force_refresh fetch s f)) = npts /\
     snd (chart_force_refresh fetch s f) = false /\
     (f = true -> npts <> [] ->
        chart_cursor_idx (fst (chart_force_refresh fetch s f))
        = Z.of_nat (List.length npts) - 1) /\
     (f = false -> 0 <= chart_cursor_idx s < chart_count s -> npts <> [] ->
        ((forall p, In p npts ->
            timestamp p <> timestamp (point_at (chart_points s) (chart_cursor_idx s))) /\
         chart_cursor_idx (fst (chart_force_refresh fetch s f))
         = Z.of_nat (List.length npts) - 1) \/
        (0 <= chart_cursor_idx (fst (chart_force_refresh fetch s f))
           < Z.of_nat (List.length npts) /\
         timestamp (point_at npts (chart_cursor_idx (fst (chart_force_refresh fetch s f))))
         = timestamp (point_at (chart_points s) (chart_cursor_idx s)) /\
         forall k, 0 <= k < chart_cursor_idx (fst (chart_force_refresh fetch s f)) ->
           timestamp (point_at npts k)
           <> timestamp (point_at (chart_points s) (chart_cursor_idx s)))) /\
     (f = false -> ~ (0 <= chart_cursor_idx s < chart_count s) -> npts <> [] ->
        chart_cursor_idx (fst (chart_force_refresh fetch s f))
        = Z.of_nat (List.length npts) - 1) /\
     (f = false -> 0 < chart_count s ->
        close_time (point_at (chart_points s) (chart_count s - 1)) <= now ->
        0 <= chart_cursor_idx s < chart_count s - 1 ->
        chart_cursor_idx (fst (chart_force_refresh fetch s f))
        = chart_cursor_idx (chart_refresh_if_expired fetch now s)) /\
     (0 < chart_count s ->
        close_time (point_at (chart_points s) (chart_count s - 1)) <= now ->
        chart_cursor_idx s = chart_count s - 1 -> npts <> [] ->
        chart_cursor_idx (chart_refresh_if_expired fetch now s)
        = Z.of_nat (List.length npts) - 1 /\
        (f = false ->
         (exists k, 0 <= k < Z.of_nat (List.length npts) - 1 /\
            timestamp (point_at npts k)
            = timestamp (point_at (chart_points s) (chart_cursor_idx s))) ->
         chart_cursor_idx (fst (chart_force_refresh fetch s f))
         <> chart_cursor_idx (chart_refresh_if_expired fetch now s)))) /\
  (forall (fetch : Fetcher) (now : Z) (s : ChartState) (f : bool),
     is_empty_string (chart_symbol s) = false ->
     fetch (chart_symbol s) (current_period s) = None ->
     chart_force_refresh fetch s f = (s, true) /\
     chart_refresh_if_expired fetch now s = s).
Proof.
  split.
  - intros fetch now s npts f Hsym Hf.
    assert (Hnz : npts <> [] -> (Z.of_nat (List.length npts) <=? 0) = false).
    { intros Hne. apply Z.leb_gt. destruct npts; [congruence | simpl; lia]. }
    assert (Hrest : f = false -> 0 <= chart_cursor_idx s < chart_count s -> npts <> [] ->
              chart_cursor_idx (fst (chart_force_refresh fetch s f))
              = (let r := chart_restore_cursor_by_timestamp npts (Z.of_nat (List.length npts))
                            (timestamp (point_at (chart_points s) (chart_cursor_idx s))) in
                 if r >=? 0 then r else Z.of_nat (List.length npts) - 1)).
    { intros -> Hcur Hne. unfold chart_force_refresh, chart_reload_data. rewrite Hsym, Hf.
      cbv zeta. rewrite (Hnz Hne).
      replace ((0 <=? chart_cursor_idx s) && (chart_cursor_idx s <? chart_count s)) with true
        by (symmetry; apply andb_true_intro; split; [apply Z.leb_le | apply Z.ltb_lt]; lia).
      reflexivity. }
    assert (Hexp : 0 < chart_count s ->
              close_time (point_at (chart_points s) (chart_count s - 1)) <= now ->
              0 <= chart_cursor_idx s < chart_count s -> npts <> [] ->
              chart_cursor_idx (chart_refresh_if_expired fetch now s)
              = (if chart_cursor_idx s =? chart_count s - 1 then Z.of_nat (List.length npts) - 1
                 else let r := chart_restore_cursor_by_timestamp npts (Z.of_nat (List.length npts))
                                 (timestamp (point_at (chart_points s) (chart_cursor_idx s))) in
                      if r >=? 0 then r else Z.of_nat (List.length npts) - 1)).
    { intros Hc Hnow Hcur Hne.
      unfold chart_refresh_if_expired, chart_reload_data. rewrite Hsym, Hf. cbv zeta.
      replace (chart_count s <=? 0) with false by (symmetry; apply Z.leb_gt; lia).
      replace (now <? close_time (point_at (chart_points s) (chart_count s - 1))) with false
        by (symmetry; apply Z.ltb_ge; lia).
      replace ((0 <=? chart_cursor_idx s) && (chart_cursor_idx s <? chart_count s)) with true
        by (symmetry; apply andb_true_intro; split; [apply Z.leb_le | apply Z.ltb_lt]; lia).
      rewrite (Hnz Hne).
      replace (Z.of_nat (List.length npts) >? 0) with true
        by (symmetry; rewrite Z.gtb_ltb; apply Z.ltb_lt; apply Z.leb_gt, (Hnz Hne)).
      simpl. reflexivity. }
    unfold chart_force_refresh at 1 2, chart_reload_data at 1 2. rewrite Hsym, Hf. simpl.
    split; [reflexivity|]. split; [reflexivity|]. split; [|split; [|split; [|split]]].
    + intros -> Hne. unfold chart_force_refresh, chart_reload_data. rewrite Hsym, Hf.
      cbv zeta. rewrite (Hnz Hne). reflexivity.
    + intros Hff Hcur Hne. rewrite (Hrest Hff Hcur Hne). cbv zeta.
      pose proof (restore_first_spec npts (timestamp (point_at (chart_points s) (chart_cursor_idx s))))
        as Hr.
      cbv zeta in Hr.
      destruct Hr as [[H1 H2] | (H1 & H2 & H3)].
      * left. rewrite H1. split; [exact H2 | reflexivity].
      * right. replace (_ >=? 0) with true by (symmetry; rewrite Z.geb_leb; apply Z.leb_le; lia).
        auto.
    + intros -> Hcur Hne. unfold chart_force_refresh, chart_reload_data. rewrite Hsym, Hf.
      cbv zeta. rewrite (Hnz Hne).
      replace ((0 <=? chart_cursor_idx s) && (chart_cursor_idx s <? chart_count s)) with false.
      { reflexivity. }
      symmetry. apply not_true_iff_false. intros H. apply Hcur.
      apply andb_prop in H as [H1 H2]. apply Z.leb_le in H1. apply Z.ltb_lt in H2. lia.
    + intros Hff Hc Hnow Hcur.
      destruct npts as [|p l] eqn:En.
      { unfold chart_refresh_if_expired, chart_force_refresh, chart_reload_data.
        rewrite Hsym, Hf. cbv zeta. simpl.
        replace (chart_count s <=? 0) with false by (symmetry; apply Z.leb_gt; lia).
        replace (now <? close_time (point_at (chart_points s) (chart_count s - 1))) with false
          by (symmetry; apply Z.ltb_ge; lia).
        reflexivity. }
      rewrite <- En in *. assert (Hne : npts <> []) by (rewrite En; discriminate).
      rewrite (Hrest Hff ltac:(lia) Hne), (Hexp Hc Hnow ltac:(lia) Hne).
      replace (chart_cursor_idx s =? chart_count s - 1) with false
        by (symmetry; apply Z.eqb_neq; lia).
      reflexivity.
    + intros Hc Hnow Hcur Hne.
      rewrite (Hexp Hc Hnow ltac:(lia) Hne), Hcur, Z.eqb_refl.
      split; [reflexivity|].
      intros Hff (k & Hk & Hts).
      rewrite <- Hcur in *.
      rewrite (Hrest Hff ltac:(lia) Hne). cbv zeta.
      pose proof (restore_first_spec npts (timestamp (point_at (chart_points s) (chart_cursor_idx s))))
        as Hr.
      cbv zeta in Hr.
      destruct Hr as [[H1 H2] | (H1 & H2 & H3)].
      * exfalso. apply (H2 (point_at npts k)); [|exact Hts].
        unfold point_at. apply nth_In. lia.
      * replace (_ >=? 0) with true by (symmetry; rewrite Z.geb_leb; apply Z.leb_le; lia).
        destruct (Z_lt_le_dec k (chart_restore_cursor_by_timestamp npts
                    (Z.of_nat (List.length npts))
                    (timestamp (point_at (chart_points s) (chart_cursor_idx s))))) as [Hlt|Hle].
        -- exfalso. exact (H3 k ltac:(lia) Hts).
        -- lia.
  - intros fetch now s f Hsym Hf.
    unfold chart_force_refresh, chart_refresh_if_expired, chart_reload_data.
    rewrite Hsym, Hf. simpl. split; [reflexivity|].
    destruct (chart_count s <=? 0); [reflexivity|]. simpl.
    destruct (now <? _); reflexivity.
Qed.

Lemma force_refresh_vs_expiry_refresh_witness :
  chart_cursor_idx (fst (chart_force_refresh fetch_R (chart_R 0) false))
  = chart_cursor_idx (chart_refresh_if_expired fetch_R 1000 (chart_R 0)).
Proof.
  destruct (proj1 force_refresh_vs_expiry_refresh fetch_R 1000 (chart_R 0)
              [pt 60; pt 120] false eq_refl eq_refl) as (_ & _ & _ & _ & _ & H & _).
  apply H; [reflexivity | ..]; unfold chart_count, point_at; simpl; lia.
Defined.

(** C4 counterexample: from the closed state (empty symbol, cached index
    -1), opening row 0 of a one-symbol table with a failing candle fetch
    returns false but leaves the symbol string and the cached index set to
    the requested symbol. *)
Lemma chart_open_failure_sets_symbol :
  let r := chart_open (Some [btc]) fetch_fail 0 PERIOD_1MIN closed_chart in
  fst (fst r) = false /\
  chart_symbol (snd (fst r)) = "BTCUSDT"%string /\
  chart_symbol closed_chart = EmptyString /\
  chart_symbol_index (snd (fst r)) = 0 /\
  chart_symbol_index closed_chart = -1.
Proof. vm_compute. repeat split. Qed.

(** C4 (amended). When [chart_open] fails (invalid context or index, or a
    failed fetch) it returns false and beeps, and the candle buffer, cursor,
    [show_chart], follow-latest flag and period are unchanged; the symbol
    string and the cached symbol index are overwritten: the index becomes
    the requested one after the symbol was resolved and -1 before that, and
    the symbol string becomes the resolved symbol or stays as it was. The
    caller sets [show_chart] only on success. *)
Theorem chart_open_failure_keeps_chart
    (ctx : option (list TickerData)) (fetch : Fetcher) (i : Z) (p : Period) (s : ChartState) :
  fst (fst (chart_open ctx fetch i p s)) = false ->
  let s' := snd (fst (chart_open ctx fetch i p s)) in
  snd (chart_open ctx fetch i p s) = true /\
  chart_points s' = chart_points s /\
  chart_cursor_idx s' = chart_cursor_idx s /\
  show_chart s' = show_chart s /\
  follow_latest s' = follow_latest s /\
  current_period s' = current_period s /\
  ((chart_symbol_index s' = -1 /\ chart_symbol s' = chart_symbol s) \/
   (chart_symbol_index s' = i /\
    exists tickers, ctx = Some tickers /\
      chart_symbol s' = symbol (nth (Z.to_nat i) tickers (mkTicker EmptyString 0 0)))).
Proof.
  unfold chart_open, chart_reload_data.
  destruct ctx as [tickers|]; simpl.
  - destruct (_ || _ || _); simpl.
    + intros _. repeat split; auto.
    + destruct (fetch _ p); simpl; [discriminate|].
      intros _. repeat split; auto. right. split; [reflexivity|]. eauto.
  - intros _. repeat split; auto.
Qed.

Lemma chart_open_failure_keeps_chart_witness :
  fst (fst (chart_open (Some [btc]) fetch_fail 0 PERIOD_1MIN closed_chart)) = false /\
  chart_points (snd (fst (chart_open (Some [btc]) fetch_fail 0 PERIOD_1MIN closed_chart)))
  = chart_points closed_chart.
Proof.
  split; [reflexivity|].
  exact (proj1 (proj2 (chart_open_failure_keeps_chart
                        (Some [btc]) fetch_fail 0 PERIOD_1MIN closed_chart eq_refl))).
Defined.

(** *** Cursor invariant *)

Lemma pc_inv_last (n : Z) : 0 < n -> pc_inv n (n - 1).
Proof. unfold pc_inv. lia. Qed.

Lemma pc_inv_clamp (n cur : Z) : 0 <= n -> pc_inv n (chart_clamp_cursor n cur).
Proof. unfold pc_inv, chart_clamp_cursor. intros. zbool_cases; lia. Qed.

Lemma restore_from_range (i : Z) (pts : list PricePoint) (ts : Z) :
  restore_from i pts ts = -1 \/
  i <= restore_from i pts ts < i + Z.of_nat (List.length pts).
Proof.
  revert i. induction pts as [|p pts IH]; intros i; simpl; [left; reflexivity|].
  destruct (timestamp p =? ts); [right; lia|].
  destruct (IH (i + 1)) as [H|H]; [left; exact H | right; lia].
Qed.

Lemma restore_range (pts : list PricePoint) (ts : Z) :
  let r := chart_restore_cursor_by_timestamp pts (Z.of_nat (List.length pts)) ts in
  r = -1 \/ 0 <= r < Z.of_nat (List.length pts).
Proof.
  unfold chart_restore_cursor_by_timestamp.
  destruct (_ <=? 0); [left; reflexivity|].
  destruct (restore_from_range 0 pts ts); [left | right]; lia.
Qed.

Ltac restore_bounds :=
  match goal with
  | |- context [chart_restore_cursor_by_timestamp ?p ?n ?t] =>
      pose proof (restore_range p t) as Hr; cbv zeta in Hr;
      set (r := chart_restore_cursor_by_timestamp p n t) in *
  end.

Lemma count_nonneg (s : ChartState) : 0 <= chart_count s.
Proof. unfold chart_count. lia. Qed.

Lemma inv_change_period (fetch : Fetcher) (step : Z) (s : ChartState) :
  cursor_inv s -> cursor_inv (fst (chart_change_period fetch step s)).
Proof.
  unfold chart_change_period, chart_reload_data.
  destruct (fetch _ _) as [pts|]; simpl; intros H; [|exact H].
  unfold cursor_inv, chart_count. simpl. apply pc_inv_clamp. lia.
Qed.

Lemma inv_refresh (fetch : Fetcher) (now : Z) (s : ChartState) :
  cursor_inv s -> cursor_inv (chart_refresh_if_expired fetch now s).
Proof.
  intros H. unfold chart_refresh_if_expired, chart_reload_data.
  destruct (_ || _); [exact H|]. cbv zeta.
  destruct (now <? _); [exact H|].
  destruct (fetch _ _) as [npts|]; [|exact H].
  unfold cursor_inv, chart_count, pc_inv. simpl.
  restore_bounds. zbool_cases; lia.
Qed.

Lemma inv_force (fetch : Fetcher) (s : ChartState) (f : bool) :
  cursor_inv s -> cursor_inv (fst (chart_force_refresh fetch s f)).
Proof.
  intros H. unfold chart_force_refresh, chart_reload_data.
  destruct (is_empty_string _); [exact H|]. cbv zeta.
  destruct (fetch _ _) as [npts|]; [|exact H].
  unfold cursor_inv, chart_count, pc_inv. simpl.
  restore_bounds. destruct f; zbool_cases; lia.
Qed.

Lemma inv_close (s : ChartState) : cursor_inv (chart_close s).
Proof. unfold cursor_inv, chart_count, pc_inv. simpl. lia. Qed.

Lemma inv_key (k : Key) (fetch : Fetcher) (s : ChartState) :
  cursor_inv s -> cursor_inv (chart_handle_input k fetch s).
Proof.
  intros H. pose proof (count_nonneg s) as Hn.
  destruct k as [| | | | | | |c]; simpl;
    try apply inv_change_period; try exact H.
  - destruct (chart_cursor_idx s >? 0); [|exact H].
    unfold cursor_inv. apply pc_inv_clamp. exact Hn.
  - destruct (_ && _); [|exact H].
    unfold cursor_inv. apply pc_inv_clamp. exact Hn.
  - destruct (_ || _).
    + destruct (_ && _) eqn:E; [|exact H].
      apply andb_true_iff in E as [_ E]. apply Z.gtb_lt in E.
      apply pc_inv_last. exact E.
    + destruct (_ || _); [apply inv_force; exact H|].
      destruct (_ || _ || _); [|exact H].
      unfold cursor_inv, chart_count, pc_inv. simpl. lia.
Qed.

Lemma inv_mouse (lay : ChartLayout) (fetch : Fetcher) (ev : MEVENT) (s : ChartState) :
  cursor_inv s -> cursor_inv (chart_handle_mouse lay fetch ev s).
Proof.
  intros H. unfold chart_handle_mouse.
  destruct (ev_b3 ev); [apply inv_key; exact H|].
  destruct (ev_b4 ev); [apply inv_change_period; exact H|].
  destruct (ev_b5 ev); [apply inv_change_period; exact H|].
  destruct (ev_b1 ev); [|exact H].
  destruct (_ >=? 0); [|exact H].
  unfold cursor_inv. apply pc_inv_clamp. apply count_nonneg.
Qed.

Lemma patch_last_length (p : Z) (pts : list PricePoint) :
  List.length (patch_last p pts) = List.length pts.
Proof.
  induction pts as [|a [|b l] IH]; simpl; auto.
Qed.

Lemma inv_live (tickers : list TickerData) (s : ChartState) :
  cursor_inv s -> cursor_inv (chart_apply_live_price tickers s).
Proof.
  intros H. unfold chart_apply_live_price.
  destruct (_ || _); [exact H|].
  destruct (match _ with Some t => Some t | None => _ end) as [t|]; [|exact H].
  destruct (price t <=? 0); [exact H|].
  unfold cursor_inv, chart_count in *. simpl. rewrite patch_last_length. exact H.
Qed.

Lemma inv_open (ctx : option (list TickerData)) (fetch : Fetcher) (i : Z) (p : Period)
    (s : ChartState) :
  cursor_inv s ->
  cursor_inv (match chart_open ctx fetch i p s with
              | (true, s', _) => set_show s' true
              | (false, s', _) => s'
              end).
Proof.
  intros H. unfold chart_open, chart_reload_data.
  destruct ctx as [tickers|]; [|exact H].
  destruct (_ || _ || _); [exact H|].
  destruct (fetch _ p) as [pts|]; [|exact H].
  unfold cursor_inv, chart_count, pc_inv. simpl. zbool_cases; lia.
Qed.

Lemma inv_render (env : EventLoop.Env) (v : EventLoop.View) :
  cursor_inv (EventLoop.chart v) ->
  cursor_inv (EventLoop.chart (EventLoop.render_pass env v)).
Proof.
  intros H. unfold EventLoop.render_pass.
  destruct (show_chart (EventLoop.chart v)); simpl; [|exact H].
  pose proof (inv_live (EventLoop.env_tickers env) _
                (inv_refresh (EventLoop.env_fetch env) (EventLoop.env_now env) _ H)) as H2.
  destruct (_ && _) eqn:E; [|exact H2].
  apply andb_true_iff in E as [_ E]. apply Z.gtb_lt in E.
  apply pc_inv_last. exact E.
Qed.

Lemma inv_step (s s' : ChartState) : cursor_inv s -> chart_op s s' -> cursor_inv s'.
Proof.
  intros H Hop. destruct Hop.
  - apply inv_open; exact H.
  - apply inv_close.
  - apply inv_key; exact H.
  - apply inv_mouse; exact H.
  - apply inv_change_period; exact H.
  - apply inv_force; exact H.
  - apply inv_refresh; exact H.
  - apply inv_live; exact H.
  - apply inv_render; exact H.
Qed.

(** C5. Every chart operation (open, close, key or mouse input, period
    change, forced or expiry refresh, live overlay, render pass) maps a
    state whose cursor satisfies [-1 <= cursor < len(candles)] and
    [cursor = -1 <-> len(candles) = 0] to a state that satisfies it too. *)
Theorem chart_cursor_invariant (s s' : ChartState) :
  cursor_inv s -> chart_op s s' ->
  -1 <= chart_cursor_idx s' < chart_count s' /\
  (chart_cursor_idx s' = -1 <-> chart_count s' = 0).
Proof. intros H Hop. exact (inv_step s s' H Hop). Qed.

Lemma chart_cursor_invariant_witness :
  -1 <= chart_cursor_idx (fst (chart_change_period fetch_D 1 chart_D))
     < chart_count (fst (chart_change_period fetch_D 1 chart_D)).
Proof.
  apply (chart_cursor_invariant chart_D _); [|apply op_period].
  unfold cursor_inv, pc_inv, chart_count. simpl. lia.
Defined.

(** The same invariant on every state the event loop reaches. *)
Lemma inv_board_open (env : EventLoop.Env) (sel : Z) (v : EventLoop.View) :
  cursor_inv (EventLoop.chart v) -> cursor_inv (EventLoop.chart (EventLoop.board_open env sel v)).
Proof.
  intros H.
  pose proof (inv_open (Some (EventLoop.env_tickers env)) (EventLoop.env_fetch env)
                (EventLoop.priceboard_resolve_symbol_index (EventLoop.snapshot v) sel)
                (current_period (EventLoop.chart v)) (EventLoop.chart v) H) as H'.
  unfold EventLoop.board_open.
  destruct (chart_open _ _ _ _ _) as [[[|] c] b]; exact H'.
Qed.

Lemma inv_dispatch (env : EventLoop.Env) (inp : EventLoop.Input) (v : EventLoop.View) :
  cursor_inv (EventLoop.chart v) -> cursor_inv (EventLoop.chart (EventLoop.dispatch env inp v)).
Proof.
  intros H. destruct inp as [|k|ev]; simpl; [exact H| |].
  - destruct (show_chart (EventLoop.chart v)); simpl; [apply inv_key; exact H|].
    destruct k as [| | | | | | |c]; simpl; try exact H; try (apply inv_board_open; exact H).
    destruct (_ || _); [apply inv_board_open; exact H|].
    destruct (_ || _); exact H.
  - destruct (show_chart (EventLoop.chart v)); simpl; [apply inv_mouse; exact H|].
    unfold EventLoop.board_handle_mouse.
    destruct (ev_b4 ev); [exact H|]. destruct (ev_b5 ev); [exact H|].
    destruct (ev_b1 ev); [|exact H].
    destruct (_ <? 0); [exact H|]. apply inv_board_open; exact H.
Qed.

Lemma cursor_inv_reachable (v : EventLoop.View) :
  EventLoop.reachable v -> cursor_inv (EventLoop.chart v).
Proof.
  induction 1 as [|v e1 e2 inp _ IH].
  - unfold cursor_inv, pc_inv, chart_count. simpl. lia.
  - unfold EventLoop.loop_iteration. destruct (EventLoop.running v); [|exact IH].
    apply inv_dispatch. apply inv_render. exact IH.
Qed.

(** *** Follow-latest *)

Lemma refresh_keeps_flags (fetch : Fetcher) (now : Z) (s : ChartState) :
  follow_latest (chart_refresh_if_expired fetch now s) = follow_latest s /\
  show_chart (chart_refresh_if_expired fetch now s) = show_chart s.
Proof.
  unfold chart_refresh_if_expired, chart_reload_data.
  destruct (_ || _); [auto|]. cbv zeta. destruct (now <? _); [auto|].
  destruct (fetch _ _); auto.
Qed.

Lemma live_keeps_flags (tickers : list TickerData) (s : ChartState) :
  follow_latest (chart_apply_live_price tickers s) = follow_latest s /\
  show_chart (chart_apply_live_price tickers s) = show_chart s.
Proof.
  unfold chart_apply_live_price.
  destruct (_ || _); [auto|].
  destruct (match _ with Some t => Some t | None => _ end) as [t|]; [|auto].
  destruct (price t <=? 0); auto.
Qed.

Lemma render_keeps_flags (env : EventLoop.Env) (v : EventLoop.View) :
  follow_latest (EventLoop.chart (EventLoop.render_pass env v)) = follow_latest (EventLoop.chart v) /\
  show_chart (EventLoop.chart (EventLoop.render_pass env v)) = show_chart (EventLoop.chart v).
Proof.
  unfold EventLoop.render_pass.
  destruct (show_chart (EventLoop.chart v)) eqn:Hs; simpl; [|auto].
  destruct (refresh_keeps_flags (EventLoop.env_fetch env) (EventLoop.env_now env)
              (EventLoop.chart v)) as [F1 S1].
  destruct (live_keeps_flags (EventLoop.env_tickers env)
              (chart_refresh_if_expired (EventLoop.env_fetch env) (EventLoop.env_now env)
                 (EventLoop.chart v))) as [F2 S2].
  rewrite F1, S1 in *.
  destruct (_ && _); simpl; rewrite ?F2, ?S2; auto.
Qed.

(** C6. In a render pass with the chart open, once the refresh and overlay
    steps have run (just before drawing), if follow-latest is on and the
    buffer is non-empty, the cursor is on the last candle. *)
Theorem follow_latest_after_render (env : EventLoop.Env) (v : EventLoop.View) :
  show_chart (EventLoop.chart v) = true ->
  let c := EventLoop.chart (EventLoop.render_pass env v) in
  follow_latest c = true -> 0 < chart_count c ->
  chart_cursor_idx c = chart_count c - 1.
Proof.
  intros Hs c Hf Hn. subst c.
  destruct (render_keeps_flags env v) as [F _]. rewrite F in Hf.
  revert Hn. unfold EventLoop.render_pass. rewrite Hs. simpl.
  set (s1 := chart_refresh_if_expired _ _ _).
  set (s2 := chart_apply_live_price _ s1).
  rewrite Hf. simpl.
  destruct (chart_count s2 >? 0) eqn:E; simpl; [reflexivity|].
  intros Hn. rewrite Z.gtb_ltb in E. apply Z.ltb_ge in E. lia.
Qed.

Lemma follow_latest_after_render_witness :
  chart_cursor_idx (EventLoop.chart (EventLoop.render_pass env0 view_follow))
  = chart_count (EventLoop.chart (EventLoop.render_pass env0 view_follow)) - 1.
Proof.
  apply (follow_latest_after_render env0 view_follow); vm_compute; reflexivity.
Defined.

(** *** Closing and reopening *)

Lemma change_period_keeps_flags (fetch : Fetcher) (step : Z) (s : ChartState) :
  show_chart (fst (chart_change_period fetch step s)) = show_chart s /\
  follow_latest (fst (chart_change_period fetch step s)) = follow_latest s.
Proof.
  unfold chart_change_period, chart_reload_data. destruct (fetch _ _); simpl; auto.
Qed.

Lemma force_keeps_flags (fetch : Fetcher) (s : ChartState) (f : bool) :
  show_chart (fst (chart_force_refresh fetch s f)) = show_chart s /\
  follow_latest (fst (chart_force_refresh fetch s f)) = follow_latest s.
Proof.
  unfold chart_force_refresh, chart_reload_data.
  destruct (is_empty_string _); [auto|]. cbv zeta. destruct (fetch _ _); simpl; auto.
Qed.

Lemma key_closes_or_stays (k : Key) (fetch : Fetcher) (s : ChartState) :
  show_chart s = true ->
  show_chart (chart_handle_input k fetch s) = true \/
  follow_latest (chart_handle_input k fetch s) = true.
Proof.
  intros Hs.
  destruct k as [| | | | | | |c]; simpl;
    try (left; rewrite (proj1 (change_period_keeps_flags _ _ _)); exact Hs);
    try (left; exact Hs).
  - left. destruct (_ >? 0); exact Hs.
  - left. destruct (_ && _); exact Hs.
  - destruct (_ || _); [left; destruct (_ && _); exact Hs|].
    destruct (_ || _); [left; rewrite (proj1 (force_keeps_flags _ _ _)); exact Hs|].
    destruct (_ || _ || _); [right; reflexivity | left; exact Hs].
Qed.

Lemma mouse_closes_or_stays (lay : ChartLayout) (fetch : Fetcher) (ev : MEVENT) (s : ChartState) :
  show_chart s = true ->
  show_chart (chart_handle_mouse lay fetch ev s) = true \/
  follow_latest (chart_handle_mouse lay fetch ev s) = true.
Proof.
  intros Hs. unfold chart_handle_mouse.
  destruct (ev_b3 ev); [apply key_closes_or_stays; exact Hs|].
  destruct (ev_b4 ev); [left; rewrite (proj1 (change_period_keeps_flags _ _ _)); exact Hs|].
  destruct (ev_b5 ev); [left; rewrite (proj1 (change_period_keeps_flags _ _ _)); exact Hs|].
  left. destruct (ev_b1 ev); [|exact Hs]. destruct (_ >=? 0); exact Hs.
Qed.

Lemma chart_open_keeps_flags (ctx : option (list TickerData)) (fetch : Fetcher) (i : Z)
    (p : Period) (s : ChartState) :
  follow_latest (snd (fst (chart_open ctx fetch i p s))) = follow_latest s /\
  show_chart (snd (fst (chart_open ctx fetch i p s))) = show_chart s.
Proof.
  unfold chart_open, chart_reload_data.
  destruct ctx as [tickers|]; simpl; [|auto].
  destruct (_ || _ || _); simpl; [auto|].
  destruct (fetch _ p); simpl; auto.
Qed.

Lemma chart_open_success_cursor (ctx : option (list TickerData)) (fetch : Fetcher) (i : Z)
    (p : Period) (s : ChartState) :
  fst (fst (chart_open ctx fetch i p s)) = true ->
  chart_cursor_idx (snd (fst (chart_open ctx fetch i p s)))
  = chart_count (snd (fst (chart_open ctx fetch i p s))) - 1.
Proof.
  unfold chart_open, chart_reload_data.
  destruct ctx as [tickers|]; simpl; [|discriminate].
  destruct (_ || _ || _); simpl; [discriminate|].
  destruct (fetch _ p) as [pts|]; simpl; [|discriminate].
  intros _. unfold chart_count. simpl. zbool_cases; lia.
Qed.

Lemma board_open_flags (env : EventLoop.Env) (sel : Z) (v : EventLoop.View) :
  let c' := EventLoop.chart (EventLoop.board_open env sel v) in
  follow_latest c' = follow_latest (EventLoop.chart v) /\
  (show_chart c' = show_chart (EventLoop.chart v) \/
   chart_cursor_idx c' = chart_count c' - 1).
Proof.
  unfold EventLoop.board_open.
  pose proof (chart_open_keeps_flags (Some (EventLoop.env_tickers env)) (EventLoop.env_fetch env)
                (EventLoop.priceboard_resolve_symbol_index (EventLoop.snapshot v) sel)
                (current_period (EventLoop.chart v)) (EventLoop.chart v)) as [F S].
  pose proof (chart_open_success_cursor (Some (EventLoop.env_tickers env)) (EventLoop.env_fetch env)
                (EventLoop.priceboard_resolve_symbol_index (EventLoop.snapshot v) sel)
                (current_period (EventLoop.chart v)) (EventLoop.chart v)) as C.
  destruct (chart_open _ _ _ _ _) as [[[|] c] b]; simpl in *.
  - split; [exact F|]. right. exact (C eq_refl).
  - split; [exact F|]. left. exact S.
Qed.

Ltac board_open_case Hs :=
  match goal with
  | |- context [EventLoop.board_open ?e ?sel ?w] =>
      let F := fresh "F" in let S := fresh "S" in
      destruct (board_open_flags e sel w) as [F [S|S]];
      [split; [exact F | left; rewrite S; exact Hs] | split; [exact F | right; exact S]]
  end.

Lemma board_dispatch_flags (env : EventLoop.Env) (inp : EventLoop.Input) (w : EventLoop.View) :
  show_chart (EventLoop.chart w) = false ->
  let c' := EventLoop.chart (EventLoop.dispatch env inp w) in
  follow_latest c' = follow_latest (EventLoop.chart w) /\
  (show_chart c' = false \/ chart_cursor_idx c' = chart_count c' - 1).
Proof.
  intros Hs. destruct inp as [|k|ev]; simpl; [auto| |]; rewrite Hs.
  - destruct k as [| | | | | | |c]; simpl; auto; try board_open_case Hs.
    destruct (_ || _); [board_open_case Hs|].
    destruct (_ || _); simpl; auto.
  - unfold EventLoop.board_handle_mouse.
    destruct (ev_b4 ev); simpl; [auto|]. destruct (ev_b5 ev); simpl; [auto|].
    destruct (ev_b1 ev); [|auto]. destruct (_ <? 0); [auto|].
    board_open_case Hs.
Qed.

Lemma closed_follow (v : EventLoop.View) :
  EventLoop.reachable v ->
  show_chart (EventLoop.chart v) = false -> follow_latest (EventLoop.chart v) = true.
Proof.
  induction 1 as [|v e1 e2 inp _ IH]; [reflexivity|].
  unfold EventLoop.loop_iteration. destruct (EventLoop.running v); [|exact IH].
  destruct (render_keeps_flags e1 v) as [F S].
  set (w := EventLoop.render_pass e1 v) in *.
  destruct (show_chart (EventLoop.chart v)) eqn:Hv.
  - intros Hc. destruct inp as [|k|ev]; simpl in Hc |- *.
    + congruence.
    + rewrite S in Hc |- *. simpl in Hc |- *.
      destruct (key_closes_or_stays k (EventLoop.env_fetch e2) (EventLoop.chart w) S)
        as [H|H]; congruence.
    + rewrite S in Hc |- *. simpl in Hc |- *.
      destruct (mouse_closes_or_stays (EventLoop.env_layout e2) (EventLoop.env_fetch e2) ev
                  (EventLoop.chart w) S) as [H|H]; congruence.
  - intros _. destruct (board_dispatch_flags e2 inp w S) as [F' _].
    rewrite F', F. apply IH. reflexivity.
Qed.

(** C10. Closing the chart with q, Q or Escape, or with a right-click,
    sets follow-latest back to true while discarding the buffer and
    resetting the cursor to -1; on every reachable state of the event loop
    with the chart closed follow-latest is on; hence a loop iteration that
    opens the chart from the board leaves it in follow-latest mode with
    the cursor on the newest candle ([len - 1], which is -1 for an empty
    buffer). *)
Theorem close_resets_follow_latest :
  (forall (k : Key) (fetch : Fetcher) (s : ChartState),
     k = KeyChar 113 \/ k = KeyChar 81 \/ k = KeyChar 27 ->
     let s' := chart_handle_input k fetch s in
     follow_latest s' = true /\ show_chart s' = false /\
     chart_points s' = [] /\ chart_cursor_idx s' = -1) /\
  (forall (lay : ChartLayout) (fetch : Fetcher) (ev : MEVENT) (s : ChartState),
     ev_b3 ev = true ->
     let s' := chart_handle_mouse lay fetch ev s in
     follow_latest s' = true /\ show_chart s' = false /\
     chart_points s' = [] /\ chart_cursor_idx s' = -1) /\
  (forall v : EventLoop.View,
     EventLoop.reachable v -> show_chart (EventLoop.chart v) = false ->
     follow_latest (EventLoop.chart v) = true) /\
  (forall (v : EventLoop.View) (e1 e2 : EventLoop.Env) (inp : EventLoop.Input),
     EventLoop.reachable v -> show_chart (EventLoop.chart v) = false ->
     let c' := EventLoop.chart (EventLoop.loop_iteration e1 e2 inp v) in
     show_chart c' = true ->
     follow_latest c' = true /\ chart_cursor_idx c' = chart_count c' - 1).
Proof.
  split; [|split; [|split]].
  - intros k fetch s [ -> | [ -> | -> ] ]; repeat split.
  - intros lay fetch ev s H. unfold chart_handle_mouse. rewrite H. repeat split.
  - exact closed_follow.
  - intros v e1 e2 inp Hr Hs c' Hc. subst c'.
    pose proof (closed_follow v Hr Hs) as Hf.
    revert Hc. unfold EventLoop.loop_iteration.
    destruct (EventLoop.running v); [|congruence].
    destruct (render_keeps_flags e1 v) as [F S].
    rewrite Hs in S.
    destruct (board_dispatch_flags e2 inp (EventLoop.render_pass e1 v) S) as [F' [S'|C]].
    + congruence.
    + intros _. split; [rewrite F', F; exact Hf | exact C].
Qed.

Lemma close_resets_follow_latest_witness :
  follow_latest (EventLoop.chart (EventLoop.loop_iteration env0 env0 (EventLoop.InputKey KEY_ENTER)
                                    EventLoop.initial_view)) = true /\
  chart_cursor_idx (EventLoop.chart (EventLoop.loop_iteration env0 env0 (EventLoop.InputKey KEY_ENTER)
                                       EventLoop.initial_view))
  = chart_count (EventLoop.chart (EventLoop.loop_iteration env0 env0 (EventLoop.InputKey KEY_ENTER)
                                    EventLoop.initial_view)) - 1.
Proof.
  apply (proj2 (proj2 (proj2 close_resets_follow_latest)) EventLoop.initial_view env0 env0
           (EventLoop.InputKey KEY_ENTER) EventLoop.reach_init eq_refl).
  vm_compute. reflexivity.
Defined.

End ChartFacts.

Module FetcherFacts.
Import Fetcher Samples.

(** Scenario E of the spec: of three symbols the second fails; rows 1 and 3
    take the new data, row 2 keeps its old value, the status is
    NetworkError. *)
Example scenario_E :
  let fetch : TickerFetch := fun s d =>
    if String.eqb s "ETHUSDT" then (false, d) else (true, mkTicker s 200 5) in
  fetcher_cycle fetch (fun _ => true) ["BTCUSDT"; "ETHUSDT"; "BNBUSDT"]%string
    [default_ticker; default_ticker; default_ticker] [btc; eth; bnb]
  = ([mkTicker "BTCUSDT" 200 5; eth; mkTicker "BNBUSDT" 200 5],
     [mkTicker "BTCUSDT" 200 5; default_ticker; mkTicker "BNBUSDT" 200 5],
     STATUS_PANEL_NETWORK_ERROR).
Proof. reflexivity. Qed.

Lemma attempted_from_S (running : nat -> bool) (k i : nat) :
  attempted_from running k (S i) = running k && attempted_from running (S k) i.
Proof. reflexivity. Qed.

Lemma attempted_from_O (running : nat -> bool) (k : nat) :
  attempted_from running k 0 = running k.
Proof. unfold attempted_from. simpl. apply andb_true_r. Qed.

Lemma fetch_all_from_spec (fetch : TickerFetch) (running : nat -> bool) :
  forall (syms : list string) (scratch : list TickerData) (k : nat) (hf : bool),
  List.length scratch = List.length syms ->
  let r := fetch_all_from fetch running k syms scratch (repeat false (List.length syms)) hf in
  List.length (fst (fst r)) = List.length syms /\
  List.length (snd (fst r)) = List.length syms /\
  (forall i, (i < List.length syms)%nat ->
     nth i (snd (fst r)) false
       = attempted_from running k i && fst (fetch (nth i syms EmptyString) (nth i scratch default_ticker)) /\
     (nth i (snd (fst r)) false = true ->
      nth i (fst (fst r)) default_ticker = snd (fetch (nth i syms EmptyString) (nth i scratch default_ticker)))) /\
  (snd r = true <->
   hf = true \/
   exists i, (i < List.length syms)%nat /\ attempted_from running k i = true /\
             fst (fetch (nth i syms EmptyString) (nth i scratch default_ticker)) = false).
Proof.
  induction syms as [|s syms IH]; intros scratch k hf Hlen r; subst r.
  - destruct scratch; simpl; [|discriminate].
    repeat split; try (intros; lia); auto.
    intros [H|[i [Hi _]]]; [exact H | simpl in Hi; lia].
  - destruct scratch as [|d scratch]; [discriminate|]. simpl in Hlen. injection Hlen as Hlen.
    simpl. destruct (running k) eqn:Rk.
    + destruct (fetch s d) as [ok d'] eqn:Ef.
      specialize (IH scratch (S k) (if ok then hf else true) Hlen).
      destruct (fetch_all_from fetch running (S k) syms scratch
                  (repeat false (List.length syms)) (if ok then hf else true))
        as [[sc up] hf'] eqn:Er.
      simpl in IH |- *. destruct IH as (L1 & L2 & Hi & Hf).
      split; [rewrite L1; reflexivity|]. split; [rewrite L2; reflexivity|]. split.
      * intros [|i] Hlt.
        -- rewrite attempted_from_O, Rk, Ef. simpl. destruct ok; split; auto; discriminate.
        -- rewrite attempted_from_S, Rk. simpl. apply Hi. lia.
      * rewrite Hf. split.
        -- intros [H|(i & Hlt & Ha & Hfail)].
           ++ destruct ok; [left; exact H|]. right. exists 0%nat.
              rewrite attempted_from_O, Rk, Ef. simpl. split; [lia | auto].
           ++ right. exists (S i). rewrite attempted_from_S, Rk. simpl.
              split; [lia | auto].
        -- intros [H|([|i] & Hlt & Ha & Hfail)].
           ++ left. rewrite H. destruct ok; reflexivity.
           ++ left. simpl in Hfail. rewrite Ef in Hfail. simpl in Hfail. rewrite Hfail. reflexivity.
           ++ right. exists i. rewrite attempted_from_S, Rk in Ha. simpl in Ha, Hfail.
              split; [lia | auto].
    + simpl. split; [simpl; lia|]. split; [rewrite repeat_length; reflexivity|]. split.
      * intros [|i] Hlt.
        -- rewrite attempted_from_O, Rk. simpl. split; [reflexivity | discriminate].
        -- rewrite attempted_from_S, Rk. simpl. rewrite nth_repeat. split; [reflexivity | discriminate].
      * split; [intros H; left; exact H|].
        intros [H|([|i] & Hlt & Ha & _)]; [exact H| |].
        -- rewrite attempted_from_O, Rk in Ha. discriminate.
        -- rewrite attempted_from_S, Rk in Ha. discriminate.
Qed.

Lemma apply_updated_nth (globals scratch : list TickerData) (updated : list bool) (i : nat) :
  List.length scratch = List.length globals -> List.length updated = List.length globals ->
  (i < List.length globals)%nat ->
  nth i (apply_updated_tickers globals scratch updated) default_ticker
  = if nth i updated false then nth i scratch default_ticker else nth i globals default_ticker.
Proof.
  revert scratch updated i.
  induction globals as [|g gs IH]; intros scratch updated i H1 H2 Hi; [simpl in Hi; lia|].
  destruct scratch as [|d ds]; [discriminate|]. destruct updated as [|u us]; [discriminate|].
  simpl in H1, H2, Hi. destruct i as [|i]; simpl; [reflexivity|].
  apply IH; lia.
Qed.

(** C9. In one fetch cycle, with [running i] the shutdown flag as seen
    before symbol [i]: after the locked publish, row [i] holds the newly
    fetched data exactly when its fetch ran and succeeded (its updated bit
    was set), and otherwise (failed, or not reached before a shutdown)
    keeps its value from before the cycle; the status is NetworkError
    exactly when some fetch that ran failed, and Normal otherwise. *)
Theorem fetcher_cycle_publish (fetch : TickerFetch) (running : nat -> bool)
    (syms : list string) (scratch globals : list TickerData) :
  List.length scratch = List.length syms -> List.length globals = List.length syms ->
  let r := fetcher_cycle fetch running syms scratch globals in
  (forall i, (i < List.length syms)%nat ->
     let res := fetch (nth i syms EmptyString) (nth i scratch default_ticker) in
     nth i (fst (fst r)) default_ticker
     = if attempted_from running 0 i && fst res then snd res else nth i globals default_ticker) /\
  (snd r = STATUS_PANEL_NETWORK_ERROR <->
   exists i, (i < List.length syms)%nat /\ attempted_from running 0 i = true /\
             fst (fetch (nth i syms EmptyString) (nth i scratch default_ticker)) = false) /\
  (snd r = STATUS_PANEL_NORMAL \/ snd r = STATUS_PANEL_NETWORK_ERROR).
Proof.
  intros H1 H2 r. subst r. unfold fetcher_cycle, fetch_all_symbols.
  pose proof (fetch_all_from_spec fetch running syms scratch 0 false H1) as Hs.
  destruct (fetch_all_from fetch running 0 syms scratch (repeat false (List.length syms)) false)
    as [[sc up] hf] eqn:E.
  simpl in Hs |- *. destruct Hs as (L1 & L2 & Hi & Hf).
  split; [|split].
  - intros i Hlt; cbv zeta.
    rewrite apply_updated_nth by lia.
    destruct (Hi i Hlt) as [U S]. rewrite U.
    destruct (attempted_from running 0 i && fst _) eqn:A; [|reflexivity].
    apply S. exact U.
  - destruct hf; simpl.
    + split; [intros _|reflexivity]. destruct (proj1 Hf eq_refl) as [H|H]; [discriminate | exact H].
    + split; [discriminate|]. intros H.
      assert (C : false = true) by (apply (proj2 Hf); right; exact H). discriminate C.
  - destruct hf; auto.
Qed.

Lemma fetcher_cycle_publish_witness :
  nth 1 (fst (fst (fetcher_cycle (fun s d => if String.eqb s "ETHUSDT" then (false, d)
                                            else (true, mkTicker s 200 5))
                     (fun _ => true) ["BTCUSDT"; "ETHUSDT"; "BNBUSDT"]%string
                     [default_ticker; default_ticker; default_ticker] [btc; eth; bnb])))
      default_ticker = eth.
Proof.
  exact (proj1 (fetcher_cycle_publish
                  (fun s d => if String.eqb s "ETHUSDT" then (false, d) else (true, mkTicker s 200 5))
                  (fun _ => true) ["BTCUSDT"; "ETHUSDT"; "BNBUSDT"]%string
                  [default_ticker; default_ticker; default_ticker] [btc; eth; bnb]
                  eq_refl eq_refl) 1%nat ltac:(simpl; lia)).
Defined.

End FetcherFacts.

Module SortFacts.
Import Priceboard SortSpec EventLoop Chart.

Lemma compare_rows_nth (st : SortState) (l : list Row) (i j : nat) :
  priceboard_compare_rows st l i j = row_cmp st (nth i l default_row) (nth j l default_row).
Proof. reflexivity. Qed.

Lemma row_cmp_antisym (st : SortState) (a b : Row) : row_cmp st b a = - row_cmp st a b.
Proof.
  destruct a as [ta oa], b as [tb ob], st as [f d].
  unfold row_cmp, priceboard_compare_rows. simpl.
  destruct d; zbool_cases; lia.
Qed.

Lemma row_cmp_lt (st : SortState) (a b : Row) :
  row_cmp st a b <= 0 -> snd a <> snd b ->
  let va := priceboard_sort_value (fst a) (current_sort_field st) in
  let vb := priceboard_sort_value (fst b) (current_sort_field st) in
  match current_sort_direction st with
  | SORT_DIR_ASC => va < vb \/ (va = vb /\ snd a < snd b)
  | SORT_DIR_DESC => va > vb \/ (va = vb /\ snd a > snd b)
  end.
Proof.
  destruct a as [ta oa], b as [tb ob], st as [f d].
  unfold row_cmp, priceboard_compare_rows. simpl.
  destruct d; zbool_cases; lia.
Qed.

Lemma swap_rows_app (pre : list Row) (a b : Row) (t : list Row) :
  priceboard_swap_rows (List.length pre) (pre ++ a :: b :: t) = pre ++ b :: a :: t.
Proof. induction pre as [|r pre IH]; simpl; [reflexivity | rewrite IH; reflexivity]. Qed.

Lemma nth_middle_S (pre : list Row) (y x : Row) (post : list Row) :
  nth (S (List.length pre)) (pre ++ y :: x :: post) default_row = x.
Proof. induction pre as [|r pre IH]; simpl; [reflexivity | exact IH]. Qed.

Lemma sift_spec (st : SortState) :
  forall j pre x post, List.length pre = j ->
  insertion_sift st j (pre ++ x :: post) = rev (ins_rev st x (rev pre)) ++ post.
Proof.
  induction j as [|j IH]; intros pre x post Hlen.
  - destruct pre; [reflexivity | discriminate].
  - destruct (exists_last (l := pre)) as (pre' & y & ->);
      [intros ->; discriminate|].
    rewrite length_app in Hlen. simpl in Hlen.
    assert (Hj : List.length pre' = j) by lia. subst j.
    rewrite <- app_assoc. simpl.
    rewrite compare_rows_nth, nth_middle.
    rewrite nth_middle_S.
    rewrite rev_unit. simpl.
    destruct (row_cmp st y x >? 0).
    + rewrite swap_rows_app, IH by reflexivity. simpl. rewrite <- app_assoc. reflexivity.
    + simpl. rewrite rev_involutive. repeat rewrite <- app_assoc. reflexivity.
Qed.

Lemma ins_rev_perm (st : SortState) (x : Row) (r : list Row) :
  Permutation (ins_rev st x r) (x :: r).
Proof.
  induction r as [|y r IH]; simpl; [reflexivity|].
  destruct (row_cmp st y x >? 0); [|reflexivity].
  rewrite IH. apply perm_swap.
Qed.

Lemma ins_rev_hd (st : SortState) (x y : Row) (r : list Row) :
  HdRel (rev_le st) y r -> rev_le st y x -> HdRel (rev_le st) y (ins_rev st x r).
Proof.
  destruct r as [|z r]; simpl; intros H1 H2.
  - constructor. exact H2.
  - destruct (row_cmp st z x >? 0); constructor; [inversion H1; assumption | exact H2].
Qed.

Lemma ins_rev_sorted (st : SortState) (x : Row) (r : list Row) :
  Sorted (rev_le st) r -> Sorted (rev_le st) (ins_rev st x r).
Proof.
  induction r as [|y r IH]; simpl; intros Hs.
  - repeat constructor.
  - apply Sorted_inv in Hs as [Hs Hd].
    destruct (row_cmp st y x >? 0) eqn:E.
    + constructor; [apply IH; exact Hs|].
      apply ins_rev_hd; [exact Hd|].
      unfold rev_le. rewrite row_cmp_antisym. apply Z.gtb_lt in E. lia.
    + constructor; [constructor; assumption|].
      constructor. unfold rev_le. rewrite Z.gtb_ltb in E. apply Z.ltb_ge in E. lia.
Qed.

Lemma firstn_skipn_S {A} (k : nat) (l : list A) (x : A) (post : list A) :
  skipn k l = x :: post -> firstn (S k) l = firstn k l ++ [x].
Proof.
  revert l. induction k as [|k IH]; intros [|a l] H; simpl in *; try discriminate.
  - injection H as -> ->. reflexivity.
  - rewrite (IH l H). reflexivity.
Qed.

Lemma skipn_S_cons {A} (k : nat) (l : list A) (x : A) (post : list A) :
  skipn k l = x :: post -> skipn (S k) l = post.
Proof.
  revert l. induction k as [|k IH]; intros [|a l] H; simpl in *; try discriminate.
  - injection H as -> ->. reflexivity.
  - exact (IH l H).
Qed.

Lemma outer_spec (st : SortState) :
  forall n l, (S n <= List.length l)%nat ->
  exists r, insertion_outer st n l = rev r ++ skipn (S n) l /\
            Sorted (rev_le st) r /\ Permutation r (firstn (S n) l).
Proof.
  induction n as [|n IH]; intros l Hl.
  - destruct l as [|a l]; simpl in Hl; [lia|].
    exists [a]. simpl. repeat constructor.
  - destruct (IH l ltac:(lia)) as (r & E & Hs & Hp).
    change (insertion_outer st (S n) l) with (insertion_sift st (S n) (insertion_outer st n l)).
    rewrite E.
    destruct (skipn (S n) l) as [|x post] eqn:Es.
    { pose proof (length_skipn (S n) l) as Hk. rewrite Es in Hk. simpl in Hk. lia. }
    assert (Hr : List.length (rev r) = S n).
    { rewrite length_rev, (Permutation_length Hp), length_firstn. lia. }
    rewrite sift_spec by exact Hr. rewrite rev_involutive.
    exists (ins_rev st x r). split; [|split].
    + f_equal. symmetry. exact (skipn_S_cons _ _ _ _ Es).
    + apply ins_rev_sorted. exact Hs.
    + rewrite ins_rev_perm, (firstn_skipn_S _ _ _ _ Es), Hp.
      rewrite Permutation_app_comm. reflexivity.
Qed.

Lemma sorted_rev_adjacent (st : SortState) (r : list Row) :
  Sorted (rev_le st) r ->
  forall i, (S i < List.length r)%nat ->
  row_cmp st (nth i (rev r) default_row) (nth (S i) (rev r) default_row) <= 0.
Proof.
  intros Hs i Hi.
  assert (Hadj : forall k, (S k < List.length r)%nat ->
                 rev_le st (nth k r default_row) (nth (S k) r default_row)).
  { clear i Hi. induction Hs as [|y r Hs IH Hd]; intros k Hk; simpl in Hk; [lia|].
    destruct k as [|k].
    - destruct r as [|z r]; simpl in Hk; [lia|]. inversion Hd. assumption.
    - apply IH. lia. }
  rewrite !rev_nth by lia.
  replace (List.length r - S i)%nat with (S (List.length r - S (S i))) by lia.
  apply Hadj. lia.
Qed.

Lemma index_rows_origin (k : Z) (ts : list TickerData) :
  forall t o, In (t, o) (index_rows k ts) ->
  k <= o < k + Z.of_nat (List.length ts) /\
  nth (Z.to_nat (o - k)) ts (mkTicker EmptyString 0 0) = t.
Proof.
  revert k. induction ts as [|a ts IH]; intros k t o H; simpl in H; [contradiction|].
  destruct H as [H|H].
  - injection H as -> ->. simpl. split; [lia|]. rewrite Z.sub_diag. reflexivity.
  - destruct (IH (k + 1) t o H) as [Hr Hn]. simpl List.length. split; [lia|].
    replace (Z.to_nat (o - k)) with (S (Z.to_nat (o - (k + 1)))) by lia.
    exact Hn.
Qed.

Lemma index_rows_nodup (k : Z) (ts : list TickerData) : NoDup (map snd (index_rows k ts)).
Proof.
  revert k. induction ts as [|a ts IH]; intros k; simpl; constructor; [|apply IH].
  rewrite in_map_iff. intros [[t o] [Ho Hin]]. simpl in Ho. subst o.
  apply index_rows_origin in Hin. lia.
Qed.

Lemma apply_sort_perm (st : SortState) (l : list Row) :
  Permutation (priceboard_apply_sort st l) l /\
  (current_sort_field st = SORT_FIELD_DEFAULT -> priceboard_apply_sort st l = l) /\
  (current_sort_field st <> SORT_FIELD_DEFAULT ->
   forall i, (S i < List.length (priceboard_apply_sort st l))%nat ->
   priceboard_compare_rows st (priceboard_apply_sort st l) i (S i) <= 0).
Proof.
  unfold priceboard_apply_sort.
  destruct (List.length l <=? 1)%nat eqn:E1.
  - apply Nat.leb_le in E1. split; [reflexivity|]. split; [reflexivity|]. intros _ i Hi. lia.
  - apply Nat.leb_gt in E1.
    destruct (outer_spec st (List.length l - 1) l ltac:(lia)) as (r & E & Hs & Hp).
    replace (S (List.length l - 1)) with (List.length l) in * by lia.
    rewrite skipn_all, app_nil_r in E. rewrite firstn_all in Hp.
    destruct (current_sort_field st) eqn:F.
    + split; [reflexivity|]. split; [reflexivity|]. intros H. congruence.
    + rewrite E. split; [transitivity r; [apply Permutation_sym, Permutation_rev | exact Hp]|]. split; [discriminate|].
      intros _ i Hi. rewrite length_rev in Hi. rewrite compare_rows_nth.
      apply sorted_rev_adjacent; assumption.
    + rewrite E. split; [transitivity r; [apply Permutation_sym, Permutation_rev | exact Hp]|]. split; [discriminate|].
      intros _ i Hi. rewrite length_rev in Hi. rewrite compare_rows_nth.
      apply sorted_rev_adjacent; assumption.
Qed.

Lemma snapshot_nodup (l : list Row) (ts : list TickerData) :
  Permutation l (priceboard_snapshot ts) -> NoDup (map snd l).
Proof.
  intros Hp. apply (Permutation_NoDup (l := map snd (priceboard_snapshot ts))).
  - apply Permutation_map. symmetry. exact Hp.
  - apply index_rows_nodup.
Qed.

(** X1. The board order after [priceboard_apply_sort]: the rows are the
    snapshot's rows rearranged; with no active field they stay in Config
    order; otherwise consecutive rows are strictly ordered by the field's
    value and, on equal values, by Config index: ascending for Asc and
    descending for Desc. *)
Theorem apply_sort_orders_rows (st : SortState) (tickers : list TickerData) :
  let out := priceboard_apply_sort st (priceboard_snapshot tickers) in
  Permutation out (priceboard_snapshot tickers) /\
  (current_sort_field st = SORT_FIELD_DEFAULT -> out = priceboard_snapshot tickers) /\
  (current_sort_field st <> SORT_FIELD_DEFAULT ->
   forall i, (S i < List.length out)%nat ->
     let a := nth i out default_row in
     let b := nth (S i) out default_row in
     let va := priceboard_sort_value (fst a) (current_sort_field st) in
     let vb := priceboard_sort_value (fst b) (current_sort_field st) in
     match current_sort_direction st with
     | SORT_DIR_ASC => va < vb \/ (va = vb /\ snd a < snd b)
     | SORT_DIR_DESC => va > vb \/ (va = vb /\ snd a > snd b)
     end).
Proof.
  intros out.
  destruct (apply_sort_perm st (priceboard_snapshot tickers)) as (Hp & Hd & Hs).
  fold out in Hp, Hd, Hs. clearbody out.
  split; [exact Hp|]. split; [exact Hd|].
  intros Hf i Hi. apply row_cmp_lt.
  - rewrite <- compare_rows_nth. apply Hs; assumption.
  - pose proof (snapshot_nodup out tickers Hp) as Hn.
    rewrite (NoDup_nth (map snd out) 0) in Hn.
    intros He. assert (C : i = S i); [|lia].
    apply Hn; rewrite ?length_map; [apply Nat.lt_succ_l; exact Hi | exact Hi |].
    assert (Hm : forall k, nth k (map snd out) 0 = snd (nth k out default_row)) by (intros k; exact (map_nth snd out default_row k)). rewrite !Hm. exact He.
Qed.

Lemma resolve_origin (st : SortState) (tickers : list TickerData) (i : Z) :
  let out := priceboard_apply_sort st (priceboard_snapshot tickers) in
  0 <= i < Z.of_nat (List.length out) ->
  let o := priceboard_resolve_symbol_index out i in
  0 <= o < Z.of_nat (List.length tickers) /\
  nth (Z.to_nat o) tickers (mkTicker EmptyString 0 0) = fst (nth (Z.to_nat i) out default_row).
Proof.
  intros out Hi o.
  destruct (apply_sort_perm st (priceboard_snapshot tickers)) as (Hp & _ & _).
  fold out in Hp.
  unfold o, priceboard_resolve_symbol_index.
  replace ((i <? 0) || (i >=? Z.of_nat (List.length out))) with false
    by (symmetry; apply orb_false_intro; [apply Z.ltb_ge | rewrite Z.geb_leb; apply Z.leb_gt]; lia).
  assert (Hin : In (nth (Z.to_nat i) out default_row) (priceboard_snapshot tickers)).
  { apply (Permutation_in _ Hp). apply nth_In. lia. }
  destruct (nth (Z.to_nat i) out default_row) as [t k] eqn:En. simpl.
  apply index_rows_origin in Hin. rewrite Z.sub_0_r in Hin. simpl in Hin. exact Hin.
Qed.

(** X2. Every row of the sorted board resolves through
    [priceboard_resolve_symbol_index] to a valid Config index whose row of
    the shared table is the row displayed. *)
Theorem sorted_rows_resolve (st : SortState) (tickers : list TickerData) (i : Z) :
  let out := priceboard_apply_sort st (priceboard_snapshot tickers) in
  0 <= i < Z.of_nat (List.length out) ->
  let o := priceboard_resolve_symbol_index out i in
  0 <= o < Z.of_nat (List.length tickers) /\
  nth (Z.to_nat o) tickers (mkTicker EmptyString 0 0) = fst (nth (Z.to_nat i) out default_row).
Proof. exact (resolve_origin st tickers i). Qed.

Lemma sorted_rows_resolve_witness :
  let out := priceboard_apply_sort (mkSort SORT_FIELD_CHANGE SORT_DIR_DESC)
               (priceboard_snapshot [Samples.btc; Samples.eth; Samples.bnb]) in
  let o := priceboard_resolve_symbol_index out 0 in
  0 <= o < 3 /\
  nth (Z.to_nat o) [Samples.btc; Samples.eth; Samples.bnb] (mkTicker EmptyString 0 0)
  = fst (nth 0 out default_row).
Proof.
  refine (sorted_rows_resolve (mkSort SORT_FIELD_CHANGE SORT_DIR_DESC)
            [Samples.btc; Samples.eth; Samples.bnb] 0 _).
  split; [lia | reflexivity].
Defined.

Lemma clamp_selected_range (n x : Z) :
  0 < n -> 0 <= priceboard_clamp_selected n x < n.
Proof. intros H. unfold priceboard_clamp_selected. zbool_cases; lia. Qed.

Lemma clamp_selected_idem (n x : Z) :
  priceboard_clamp_selected n (priceboard_clamp_selected n x) = priceboard_clamp_selected n x.
Proof. unfold priceboard_clamp_selected. zbool_cases; lia. Qed.

Lemma apply_sort_length (st : SortState) (l : list Row) :
  List.length (priceboard_apply_sort st l) = List.length l.
Proof. apply Permutation_length, apply_sort_perm. Qed.

Lemma snapshot_length (ts : list TickerData) :
  List.length (priceboard_snapshot ts) = List.length ts.
Proof.
  unfold priceboard_snapshot. generalize 0. induction ts as [|t ts IH]; intros k; simpl;
    [reflexivity | rewrite IH; reflexivity].
Qed.

(** X3. One loop iteration on the board that ends with Enter: the row the
    render pass highlighted (at the clamped selection of the sorted
    snapshot) is the one whose symbol and Config index the chart takes,
    provided the shared table still lists the same symbols; the chart is
    shown exactly when its candle fetch succeeds. *)
Theorem enter_opens_displayed_row (e1 e2 : Env) (v : View) :
  running v = true -> show_chart (chart v) = false ->
  env_tickers e1 <> [] ->
  map symbol (env_tickers e2) = map symbol (env_tickers e1) ->
  let v1 := render_pass e1 v in
  let v2 := loop_iteration e1 e2 (InputKey KEY_ENTER) v in
  let row := nth (Z.to_nat (selected v1)) (snapshot v1) default_row in
  selected v2 = selected v1 /\
  chart_symbol (chart v2) = symbol (fst row) /\
  chart_symbol_index (chart v2) = snd row /\
  show_chart (chart v2)
  = match env_fetch e2 (symbol (fst row)) (current_period (chart v)) with
    | Some _ => true
    | None => false
    end.
Proof.
  intros Hr Hs Hne Hsym v1 v2 row.
  assert (Hlen2 : List.length (env_tickers e2) = List.length (env_tickers e1))
    by (rewrite <- (length_map symbol (env_tickers e2)), Hsym, length_map; reflexivity).
  assert (Hpos : 0 < Z.of_nat (List.length (env_tickers e1)))
    by (destruct (env_tickers e1); [congruence | simpl; lia]).
  unfold v2, loop_iteration. rewrite Hr.
  unfold row, v1. unfold render_pass. rewrite Hs.
  set (T := env_tickers e1) in *.
  set (out := priceboard_apply_sort (sort v) (priceboard_snapshot T)).
  set (sel := priceboard_clamp_selected (Z.of_nat (List.length T)) (selected v)).
  assert (Hsel : 0 <= sel < Z.of_nat (List.length T)) by (apply clamp_selected_range; exact Hpos).
  assert (Hlo : List.length out = List.length T)
    by (unfold out; rewrite apply_sort_length, snapshot_length; reflexivity).
  destruct (resolve_origin (sort v) T sel ltac:(fold out; rewrite Hlo; exact Hsel))
    as [Ho Hnth].
  fold out in Ho, Hnth.
  assert (Hcl : priceboard_clamp_selected (Z.of_nat (List.length T)) sel = sel)
    by (unfold sel; apply clamp_selected_idem).
  assert (Hres : ((sel <? 0) || (sel >=? Z.of_nat (List.length out))) = false)
    by (apply orb_false_intro; [apply Z.ltb_ge | rewrite Z.geb_leb; apply Z.leb_gt]; lia).
  unfold priceboard_resolve_symbol_index in Ho, Hnth. rewrite Hres in Ho, Hnth.
  simpl. rewrite Hs. simpl. rewrite Hlo, Hcl. unfold board_open. simpl.
  unfold priceboard_resolve_symbol_index. rewrite Hres.
  set (o := snd (nth (Z.to_nat sel) out default_row)) in *.
  unfold chart_open.
  replace ((Z.of_nat (List.length (env_tickers e2)) <=? 0) || (o <? 0)
           || (o >=? Z.of_nat (List.length (env_tickers e2)))) with false
    by (rewrite Hlen2; symmetry; repeat apply orb_false_intro;
        [apply Z.leb_gt | apply Z.ltb_ge | rewrite Z.geb_leb; apply Z.leb_gt]; lia).
  assert (Hsy : symbol (nth (Z.to_nat o) (env_tickers e2) (mkTicker EmptyString 0 0))
                = symbol (fst (nth (Z.to_nat sel) out default_row))).
  { rewrite <- Hnth.
    rewrite <- (map_nth symbol (env_tickers e2) (mkTicker EmptyString 0 0)), Hsym, map_nth.
    reflexivity. }
  rewrite Hsy. unfold chart_reload_data.
  destruct (env_fetch e2 _ _); simpl; repeat split; auto.
Qed.

Lemma enter_opens_displayed_row_witness :
  let e := mkEnv [Samples.btc; Samples.eth] Samples.fetch_R 0 (mkLayout 0 1 0 0)
                 (mkBoardView 4 10 0) in
  let v := mkView Samples.closed_chart 1 (mkSort SORT_FIELD_CHANGE SORT_DIR_DESC) [] true in
  selected (loop_iteration e e (InputKey KEY_ENTER) v) = selected (render_pass e v).
Proof.
  intros e v.
  exact (proj1 (enter_opens_displayed_row e e v eq_refl eq_refl ltac:(discriminate) eq_refl)).
Defined.

End SortFacts.
Module ChartMoreFacts.
Import Chart ChartSpec.

(** X4. [chart_restore_cursor_by_timestamp] over a whole buffer returns the
    index of the first candle with the given open time, or -1 when no
    candle has it. *)
Theorem restore_cursor_finds_first (pts : list PricePoint) (ts : Z) :
  let r := chart_restore_cursor_by_timestamp pts (Z.of_nat (List.length pts)) ts in
  (r = -1 /\ forall p, In p pts -> timestamp p <> ts) \/
  (0 <= r < Z.of_nat (List.length pts) /\ timestamp (point_at pts r) = ts /\
   forall k, 0 <= k < r -> timestamp (point_at pts k) <> ts).
Proof. exact (ChartFacts.restore_first_spec pts ts). Qed.

Lemma patch_last_nth (p : Z) (pts : list PricePoint) :
  forall k, (S k < List.length pts)%nat -> nth k (patch_last p pts) default_point = nth k pts default_point.
Proof.
  induction pts as [|a pts IH]; intros k Hk; simpl in Hk; [lia|].
  destruct pts as [|b pts]; simpl in Hk; [lia|].
  change (patch_last p (a :: b :: pts)) with (a :: patch_last p (b :: pts)).
  destruct k as [|k]; [reflexivity|]. simpl. apply IH. simpl. lia.
Qed.

Lemma patch_last_last (p : Z) (pts : list PricePoint) :
  pts <> [] ->
  let last := nth (List.length pts - 1) pts default_point in
  let last' := nth (List.length pts - 1) (patch_last p pts) default_point in
  last' = mkPoint (timestamp last) (close_time last)
                  (if p >? high last then p else high last)
                  (if (low last =? 0) || (p <? low last) then p else low last) p.
Proof.
  induction pts as [|a pts IH]; intros Hne; [congruence|].
  destruct pts as [|b pts]; [reflexivity|].
  change (patch_last p (a :: b :: pts)) with (a :: patch_last p (b :: pts)).
  cbv zeta.
  assert (E : (List.length (a :: b :: pts) - 1 = S (List.length (b :: pts) - 1))%nat) by (simpl; lia).
  assert (N : forall A k (x : A) l d, nth (S k) (x :: l) d = nth k l d) by reflexivity.
  rewrite E, !N.
  apply IH. discriminate.
Qed.

(** X5. The live overlay of [chart_apply_live_price]: it changes nothing but
    the last candle, and only when a ticker row carries the chart's symbol
    with a positive price (the row at the cached index is preferred).
    Then the last candle keeps its open and close times, closes at that
    price, its high becomes the larger of the old high and the price, and
    its low becomes the smaller of the old low and the price (the price
    itself when the old low was 0). *)
Theorem live_price_patches_last (tickers : list TickerData) (s : ChartState) :
  let s' := chart_apply_live_price tickers s in
  let n := chart_count s in
  chart_count s' = n /\ chart_cursor_idx s' = chart_cursor_idx s /\
  chart_symbol s' = chart_symbol s /\ current_period s' = current_period s /\
  show_chart s' = show_chart s /\ follow_latest s' = follow_latest s /\
  chart_symbol_index s' = chart_symbol_index s /\
  (forall k, 0 <= k < n - 1 -> point_at (chart_points s') k = point_at (chart_points s) k) /\
  (s' = s \/
   exists t, In t tickers /\ symbol t = chart_symbol s /\ 0 < price t /\
     (0 <= chart_symbol_index s < Z.of_nat (List.length tickers) ->
      symbol (nth (Z.to_nat (chart_symbol_index s)) tickers (mkTicker EmptyString 0 0))
      = chart_symbol s ->
      t = nth (Z.to_nat (chart_symbol_index s)) tickers (mkTicker EmptyString 0 0)) /\
     let last := point_at (chart_points s) (n - 1) in
     let last' := point_at (chart_points s') (n - 1) in
     timestamp last' = timestamp last /\ close_time last' = close_time last /\
     close last' = price t /\ high last' = Z.max (high last) (price t) /\
     (low last = 0 -> low last' = price t) /\
     (low last <> 0 -> low last' = Z.min (low last) (price t))).
Proof.
  intros s' n. unfold s', chart_apply_live_price.
  destruct (is_empty_string (chart_symbol s) || (chart_count s <=? 0)) eqn:E0.
  { repeat split; auto. }
  apply orb_false_elim in E0 as [_ Hc]. apply Z.leb_gt in Hc.
  set (idx := chart_symbol_index s). set (sym := chart_symbol s).
  set (by_index := if (0 <=? idx) && (idx <? Z.of_nat (List.length tickers)) then _ else _).
  assert (Hbi : forall t, by_index = Some t ->
            In t tickers /\ symbol t = sym /\
            t = nth (Z.to_nat idx) tickers (mkTicker EmptyString 0 0)).
  { intros t. unfold by_index.
    destruct ((0 <=? idx) && (idx <? Z.of_nat (List.length tickers))) eqn:E1; [|discriminate].
    apply andb_prop in E1 as [E1 E2]. apply Z.leb_le in E1. apply Z.ltb_lt in E2.
    destruct (String.eqb _ sym) eqn:E3; [|discriminate]. intros Ht. injection Ht as <-.
    apply String.eqb_eq in E3. split; [apply nth_In; lia|]. auto. }
  assert (Hbn : by_index = None ->
            0 <= idx < Z.of_nat (List.length tickers) ->
            symbol (nth (Z.to_nat idx) tickers (mkTicker EmptyString 0 0)) <> sym).
  { unfold by_index. intros Hn Hr Hs.
    replace ((0 <=? idx) && (idx <? Z.of_nat (List.length tickers))) with true in Hn
      by (symmetry; apply andb_true_intro; split; [apply Z.leb_le | apply Z.ltb_lt]; lia).
    rewrite Hs, String.eqb_refl in Hn. discriminate. }
  assert (Hlatest : forall t,
            match by_index with
            | Some t0 => Some t0
            | None => find (fun t0 => String.eqb (symbol t0) sym) tickers
            end = Some t ->
            In t tickers /\ symbol t = sym /\
            (0 <= idx < Z.of_nat (List.length tickers) ->
             symbol (nth (Z.to_nat idx) tickers (mkTicker EmptyString 0 0)) = sym ->
             t = nth (Z.to_nat idx) tickers (mkTicker EmptyString 0 0))).
  { intros t. destruct by_index as [t0|] eqn:Eb.
    - intros Ht. injection Ht as <-. destruct (Hbi t0 eq_refl) as (H1 & H2 & H3). auto.
    - intros Hf. apply find_some in Hf as [Hin He]. apply String.eqb_eq in He.
      split; [exact Hin|]. split; [exact He|]. intros Hr Hs. exfalso.
      exact (Hbn eq_refl Hr Hs). }
  destruct (match by_index with Some t0 => Some t0 | None => _ end) as [t|] eqn:El.
  2:{ repeat split; auto. }
  destruct (Hlatest t eq_refl) as (Hin & Hsym & Hpref).
  destruct (price t <=? 0) eqn:Ep.
  { repeat split; auto. }
  apply Z.leb_gt in Ep.
  assert (Hne : chart_points s <> []) by (intros H; unfold chart_count in Hc; rewrite H in Hc; simpl in Hc; lia).
  pose proof (ChartFacts.patch_last_length (price t) (chart_points s)) as Hlen.
  unfold set_points_cursor, chart_count; simpl.
  split; [rewrite Hlen; reflexivity|]. repeat split.
  - intros k Hk. unfold point_at. apply patch_last_nth. unfold n, chart_count in Hk. lia.
  - right. exists t. split; [exact Hin|]. split; [exact Hsym|]. split; [lia|].
    split; [exact Hpref|].
    unfold point_at.
    replace (Z.to_nat (n - 1)) with (List.length (chart_points s) - 1)%nat
      by (unfold n, chart_count; lia).
    rewrite (patch_last_last (price t) (chart_points s) Hne). simpl.
    set (last := nth _ (chart_points s) default_point).
    split; [reflexivity|]. split; [reflexivity|]. split; [reflexivity|].
    split; [zbool_cases; lia|].
    split; intros Hl.
    + rewrite Hl, Z.eqb_refl. reflexivity.
    + apply Z.eqb_neq in Hl. rewrite Hl. simpl. zbool_cases; lia.
Qed.

(** X6. [chart_change_period] with a step of one (the up/down keys and the
    mouse wheel): the period moves one place through the seven periods,
    wrapping from the last to the first and back. When the candle fetch
    for the new period succeeds, the chart takes the new period and
    buffer and keeps its symbol, flags and cached index, silently; when it
    fails, nothing changes and it beeps. *)
Theorem change_period_wraps (fetch : Fetcher) (step : Z) (s : ChartState) :
  step = 1 \/ step = -1 ->
  let p := period_of_Z ((period_to_Z (current_period s) + step) mod PERIOD_COUNT) in
  let r := chart_change_period fetch step s in
  period_to_Z p = (period_to_Z (current_period s) + step) mod PERIOD_COUNT /\
  match fetch (chart_symbol s) p with
  | Some pts =>
      current_period (fst r) = p /\ chart_points (fst r) = pts /\ snd r = false /\
      chart_symbol (fst r) = chart_symbol s /\ show_chart (fst r) = show_chart s /\
      follow_latest (fst r) = follow_latest s /\
      chart_symbol_index (fst r) = chart_symbol_index s
  | None => fst r = s /\ snd r = true
  end.
Proof.
  intros Hstep p r.
  assert (Hp : period_of_Z (if period_to_Z (current_period s) + step <? 0 then PERIOD_COUNT - 1
                            else if period_to_Z (current_period s) + step >=? PERIOD_COUNT then 0
                            else period_to_Z (current_period s) + step) = p /\
               period_to_Z p = (period_to_Z (current_period s) + step) mod PERIOD_COUNT).
  { unfold p, PERIOD_COUNT. destruct (current_period s), Hstep as [-> | ->]; split; reflexivity. }
  destruct Hp as [Hp1 Hp2]. split; [exact Hp2|].
  unfold r, chart_change_period, chart_reload_data. cbv zeta. rewrite Hp1.
  destruct (fetch (chart_symbol s) p); simpl.
  - repeat split; reflexivity.
  - destruct s; split; reflexivity.
Qed.

Lemma change_period_wraps_witness :
  period_to_Z (period_of_Z ((period_to_Z (current_period Samples.chart_D) + -1)
                            mod PERIOD_COUNT)) = 6.
Proof.
  rewrite (proj1 (change_period_wraps Samples.fetch_D (-1) Samples.chart_D (or_intror eq_refl))).
  reflexivity.
Defined.

(** X7. The cursor keys of [chart_handle_input] on a chart that satisfies the
    cursor invariant: left moves the cursor one candle back and turns
    follow-latest off unless it is on the first candle (or there are no
    candles), right moves it one candle forward and turns follow-latest
    off unless it is on the last candle; otherwise the key does nothing. *)
Theorem cursor_keys_step (fetch : Fetcher) (s : ChartState) :
  cursor_inv s ->
  let n := chart_count s in
  let cur := chart_cursor_idx s in
  (0 < cur -> chart_handle_input KEY_LEFT fetch s = set_cursor_follow s (cur - 1) false) /\
  (cur <= 0 -> chart_handle_input KEY_LEFT fetch s = s) /\
  (0 <= cur < n - 1 -> chart_handle_input KEY_RIGHT fetch s = set_cursor_follow s (cur + 1) false) /\
  (~ 0 <= cur < n - 1 -> chart_handle_input KEY_RIGHT fetch s = s).
Proof.
  intros Hinv. unfold cursor_inv, pc_inv in Hinv. intros n cur.
  unfold chart_handle_input. fold n cur.
  repeat split; intros H.
  - replace (cur >? 0) with true by (symmetry; rewrite Z.gtb_ltb; apply Z.ltb_lt; lia).
    f_equal. unfold chart_clamp_cursor. zbool_cases; lia.
  - replace (cur >? 0) with false by (symmetry; rewrite Z.gtb_ltb; apply Z.ltb_ge; lia).
    reflexivity.
  - replace ((cur >=? 0) && (cur <? n - 1)) with true
      by (symmetry; apply andb_true_intro; split; [rewrite Z.geb_leb; apply Z.leb_le | apply Z.ltb_lt]; lia).
    f_equal. unfold chart_clamp_cursor. zbool_cases; lia.
  - destruct ((cur >=? 0) && (cur <? n - 1)) eqn:E; [|reflexivity].
    apply andb_prop in E as [E1 E2]. rewrite Z.geb_leb in E1. apply Z.leb_le in E1.
    apply Z.ltb_lt in E2. lia.
Qed.

Lemma cursor_keys_step_witness :
  chart_handle_input KEY_LEFT Samples.fetch_D Samples.chart_D
  = set_cursor_follow Samples.chart_D 1 false.
Proof.
  assert (Hinv : cursor_inv Samples.chart_D).
  { split; [split; [discriminate | reflexivity] | split; intros H; discriminate H]. }
  exact (proj1 (cursor_keys_step Samples.fetch_D Samples.chart_D Hinv) eq_refl).
Defined.

End ChartMoreFacts.

Module GeometryFacts.
Import Chart Geometry EventLoop.

Lemma chart_visible_points_pos (cols : Z) : 1 <= chart_visible_points cols.
Proof. unfold chart_visible_points. zbool_cases; lia. Qed.

Lemma chart_view_start_bounds (count vis pv pt ps sel : Z) :
  0 < count -> 1 <= vis -> 0 <= sel < count ->
  let st := chart_view_start count vis pv pt ps sel in
  0 <= st /\ st <= sel < st + vis /\ (vis <= count -> st + vis <= count) /\
  (count < vis -> st = 0).
Proof.
  intros Hc Hv Hs. unfold chart_view_start. zbool_cases; lia.
Qed.

Lemma chart_window_bounds (cols count sel prev_total : Z) (prev : ChartLayout) :
  0 < count -> 0 <= sel < count ->
  let lay := draw_chart_layout cols count sel prev_total prev in
  let st := chart_view_start_idx lay in
  let vis := chart_view_visible_points lay in
  1 <= vis /\ 0 <= st /\ st <= sel < st + vis /\
  (vis <= count -> st + vis <= count) /\ (count < vis -> st = 0).
Proof.
  intros Hc Hs lay st vis.
  unfold st, vis, lay, draw_chart_layout.
  replace (count =? 0) with false by (symmetry; apply Z.eqb_neq; lia). simpl.
  pose proof (chart_visible_points_pos cols) as Hv.
  split; [exact Hv|]. apply chart_view_start_bounds; assumption.
Qed.

(** X8. The candle window [draw_chart] chooses: with at least one candle and
    the cursor on a candle, the cursor's candle is inside the window, the
    window starts at a candle, and it never runs past the last candle
    while the buffer can fill it. *)
Theorem chart_window_shows_cursor (cols count sel prev_total : Z) (prev : ChartLayout) :
  0 < count -> 0 <= sel < count ->
  let lay := draw_chart_layout cols count sel prev_total prev in
  let st := chart_view_start_idx lay in
  let vis := chart_view_visible_points lay in
  1 <= vis /\ 0 <= st /\ st <= sel < st + vis /\
  (vis <= count -> st + vis <= count) /\ (count < vis -> st = 0).
Proof. exact (chart_window_bounds cols count sel prev_total prev). Qed.

Lemma chart_window_shows_cursor_witness :
  let lay := draw_chart_layout 80 100 99 0 (mkLayout 0 1 0 0) in
  chart_view_start_idx lay <= 99 < chart_view_start_idx lay + chart_view_visible_points lay.
Proof.
  intros lay.
  pose proof (chart_window_shows_cursor 80 100 99 0 (mkLayout 0 1 0 0)
                ltac:(lia) ltac:(lia)) as H.
  cbv zeta in H. destruct H as (_ & _ & H & _). exact H.
Defined.

Lemma chart_hit_column (lay : ChartLayout) (total i d : Z) :
  chart_view_stride lay = candle_stride ->
  0 <= i < chart_view_visible_points lay -> 0 <= d < candle_stride ->
  0 <= chart_view_start_idx lay + i < total ->
  ui_chart_hit_test_index lay (chart_view_start_x lay + i * candle_stride + d) total
  = chart_view_start_idx lay + i.
Proof.
  intros Hst Hi Hd Ht. unfold ui_chart_hit_test_index. rewrite Hst. unfold candle_stride in *.
  replace ((chart_view_start_x lay + i * 2 + d - chart_view_start_x lay) / 2) with i
    by (apply Z.div_unique with d; lia).
  zbool_cases; lia.
Qed.

(** X9. A left click on a candle that [draw_chart] drew (at either of the two
    columns of its stride) selects exactly that candle and turns
    follow-latest off. *)
Theorem chart_click_selects_drawn_candle (cols sel prev_total : Z) (prev : ChartLayout)
    (fetch : Fetcher) (s : ChartState) (i d y : Z) :
  0 < chart_count s -> 0 <= sel < chart_count s ->
  let lay := draw_chart_layout cols (chart_count s) sel prev_total prev in
  let idx := chart_view_start_idx lay + i in
  0 <= i < chart_view_visible_points lay -> idx < chart_count s -> 0 <= d < candle_stride ->
  ui_chart_hit_test_index lay (candle_x i + d) (chart_count s) = idx /\
  chart_handle_mouse lay fetch (mkEvent (candle_x i + d) y true false false false) s
  = set_cursor_follow s idx false.
Proof.
  intros Hc Hs lay idx Hi Hidx Hd.
  destruct (chart_window_bounds cols (chart_count s) sel prev_total prev Hc Hs)
    as (Hv & H0 & _).
  fold lay in Hv, H0.
  assert (Hhit : ui_chart_hit_test_index lay (candle_x i + d) (chart_count s) = idx).
  { assert (Hx : chart_view_start_x lay = chart_x /\ chart_view_stride lay = candle_stride).
    { unfold lay, draw_chart_layout.
      replace (chart_count s =? 0) with false by (symmetry; apply Z.eqb_neq; lia).
      split; reflexivity. }
    destruct Hx as [Hx1 Hx2]. unfold candle_x. rewrite <- Hx1.
    apply chart_hit_column; try assumption. lia. }
  split; [exact Hhit|].
  unfold chart_handle_mouse. simpl. rewrite Hhit.
  replace (idx >=? 0) with true by (symmetry; rewrite Z.geb_leb; apply Z.leb_le; lia).
  f_equal. unfold chart_clamp_cursor. zbool_cases; lia.
Qed.

Lemma chart_click_selects_drawn_candle_witness :
  chart_handle_mouse (draw_chart_layout 80 5 2 0 (mkLayout 0 1 0 0)) Samples.fetch_D
    (mkEvent (candle_x 3 + 1) 10 true false false false) Samples.chart_D
  = set_cursor_follow Samples.chart_D 3 false.
Proof.
  assert (Hc : chart_count Samples.chart_D = 5) by reflexivity.
  assert (Hv : chart_view_visible_points (draw_chart_layout 80 5 2 0 (mkLayout 0 1 0 0)) = 12)
    by reflexivity.
  assert (Hs : chart_view_start_idx (draw_chart_layout 80 5 2 0 (mkLayout 0 1 0 0)) = 0)
    by reflexivity.
  pose proof (chart_click_selects_drawn_candle 80 2 0 (mkLayout 0 1 0 0) Samples.fetch_D
                Samples.chart_D 3 1 10 ltac:(rewrite Hc; lia) ltac:(rewrite Hc; lia)) as H.
  cbv zeta in H. rewrite Hc, Hv, Hs in H.
  exact (proj2 (H ltac:(lia) ltac:(lia) ltac:(unfold candle_stride; lia))).
Defined.

(** X10. The board's hit test and its drawing agree: with the placement
    [draw_main_screen] records, a click on the screen line where a row in
    the viewport is drawn returns that row, and whenever the hit test
    returns a row, that row is in the viewport and drawn on the clicked
    line. *)
Theorem board_click_hits_drawn_row (lines count sel old_offset : Z) :
  let vis := board_visible_rows lines in
  let off := Priceboard.board_viewport count vis sel old_offset in
  let bv := mkBoardView board_start_y vis off in
  (forall i, 0 <= i < count -> board_row_in_view off vis i = true ->
     ui_price_board_hit_test_row bv (board_row_y off i) count = i) /\
  (forall y i, ui_price_board_hit_test_row bv y count = i -> 0 <= i ->
     i < count /\ board_row_in_view off vis i = true /\ board_row_y off i = y).
Proof.
  intros vis off bv. unfold ui_price_board_hit_test_row, board_row_in_view, board_row_y, bv, board_start_y. cbn [price_board_view_start_y price_board_view_rows price_board_scroll_offset].
  split.
  - intros i Hi Hv. apply andb_prop in Hv as [H1 H2].
    apply Z.leb_le in H1. apply Z.ltb_lt in H2. zbool_cases; lia.
  - intros y i. zbool_cases; intros Hy Hi; lia.
Qed.

End GeometryFacts.
Module HintFacts.
Import Priceboard PriceboardHint.

(** X11. The F5/F6 hint of [priceboard_next_sort_hint] announces what the next
    press of that key does in [priceboard_cycle_sort]: a down arrow when it
    sorts by that column descending, an up arrow when it sorts ascending,
    and "=" when it returns to the configured order. *)
Theorem next_sort_hint_predicts_cycle (f : PriceboardSortField) (st : SortState) :
  f <> SORT_FIELD_DEFAULT ->
  (priceboard_next_sort_hint f st = "↓"%string <-> priceboard_cycle_sort f st = mkSort f SORT_DIR_DESC) /\
  (priceboard_next_sort_hint f st = "↑"%string <-> priceboard_cycle_sort f st = mkSort f SORT_DIR_ASC) /\
  (priceboard_next_sort_hint f st = "="%string <->
     current_sort_field (priceboard_cycle_sort f st) = SORT_FIELD_DEFAULT).
Proof.
  intros Hf. destruct st as [cf cd].
  destruct f; try congruence; destruct cf, cd; simpl;
    repeat split; intros H; (reflexivity || discriminate).
Qed.

Lemma next_sort_hint_predicts_cycle_witness :
  priceboard_next_sort_hint SORT_FIELD_PRICE initial_sort = "↓"%string.
Proof.
  apply (proj2 (proj1 (next_sort_hint_predicts_cycle SORT_FIELD_PRICE initial_sort
                         ltac:(discriminate)))).
  reflexivity.
Defined.

End HintFacts.

Module TextFacts.
Import Text.

Lemma split_at_dot_spec (s : list ascii) :
  match split_at_dot s with
  | (ip, None) => s = ip /\ ~ In "."%char ip
  | (ip, Some f) => s = ip ++ "."%char :: f /\ ~ In "."%char ip
  end.
Proof.
  induction s as [|c s IH]; simpl; [tauto|].
  destruct (Ascii.eqb c ".") eqn:E.
  - apply Ascii.eqb_eq in E. subst c. simpl. tauto.
  - apply Ascii.eqb_neq in E. destruct (split_at_dot s) as [ip [f|]]; simpl;
      destruct IH as [-> H]; split; try reflexivity; intros [H'|H']; auto.
Qed.

Lemma split_at_dot_nodot (ip : list ascii) :
  ~ In "."%char ip -> split_at_dot ip = (ip, None).
Proof.
  induction ip as [|c ip IH]; intros H; [reflexivity|]. simpl.
  destruct (Ascii.eqb c ".") eqn:E.
  - apply Ascii.eqb_eq in E. subst c. exfalso. apply H. left. reflexivity.
  - rewrite IH by (intros H'; apply H; right; exact H'). reflexivity.
Qed.

Lemma split_at_dot_app (ip f : list ascii) :
  ~ In "."%char ip -> split_at_dot (ip ++ "."%char :: f) = (ip, Some f).
Proof.
  induction ip as [|c ip IH]; intros H; [reflexivity|]. simpl.
  destruct (Ascii.eqb c ".") eqn:E.
  - apply Ascii.eqb_eq in E. subst c. exfalso. apply H. left. reflexivity.
  - rewrite IH by (intros H'; apply H; right; exact H'). reflexivity.
Qed.

Lemma commas_int_loop_length (ip : list ascii) (cap : nat) :
  forall out, (List.length out <= cap)%nat -> (List.length (commas_int_loop ip cap out) <= cap)%nat.
Proof.
  induction ip as [|c ip IH]; intros out H; cbn [commas_int_loop]; [exact H|].
  destruct (List.length out <? cap)%nat eqn:E; [|exact H].
  apply Nat.ltb_lt in E.
  destruct ((0 <? List.length ip)%nat && (List.length ip mod 3 =? 0)%nat
            && (List.length (out ++ [c]) <? cap)%nat) eqn:E2.
  - apply IH. apply andb_prop in E2 as [_ E2]. apply Nat.ltb_lt in E2.
    rewrite !length_app in *. simpl in *. lia.
  - apply IH. rewrite length_app. simpl. lia.
Qed.

Lemma copy_loop_length (s : list ascii) (cap : nat) :
  forall out, (List.length out <= cap)%nat -> (List.length (copy_loop s cap out) <= cap)%nat.
Proof.
  induction s as [|c s IH]; intros out H; simpl; [exact H|].
  destruct (List.length out <? cap)%nat eqn:E; [|exact H].
  apply Nat.ltb_lt in E. apply IH. rewrite length_app. simpl. lia.
Qed.

(** X12. [insert_commas] never overflows its buffer: with a buffer of
    [dest_size] bytes it writes at most [dest_size - 1] characters (room is
    left for the terminating NUL), and with a zero-sized buffer it writes
    nothing. *)
Theorem insert_commas_fits (src : list ascii) (dest_size : nat) :
  match insert_commas src dest_size with
  | Some out => (List.length out < dest_size)%nat
  | None => dest_size = 0%nat
  end.
Proof.
  unfold insert_commas. destruct dest_size as [|cap]; [reflexivity|].
  set (neg := match src with
              | c :: t => if Ascii.eqb c "-" then (true, t) else (false, src)
              | [] => (false, src) end).
  destruct neg as [negative start].
  set (out0 := if negative && (0 <? cap)%nat then ["-"%char] else []).
  assert (H0 : (List.length out0 <= cap)%nat).
  { unfold out0. destruct negative; simpl; [|lia].
    destruct (0 <? cap)%nat eqn:E; simpl; [apply Nat.ltb_lt in E|]; lia. }
  destruct (split_at_dot start) as [ip dot].
  pose proof (commas_int_loop_length ip cap out0 H0) as H1.
  destruct dot as [frac|]; [|lia].
  destruct (List.length (commas_int_loop ip cap out0) <? cap)%nat eqn:E; [|lia].
  apply Nat.ltb_lt in E.
  assert (H2 := copy_loop_length frac cap (commas_int_loop ip cap out0 ++ ["."%char])).
  rewrite length_app in H2. simpl in H2. lia.
Qed.

Lemma commas_int_loop_room (ip : list ascii) (cap : nat) :
  forall out, (List.length out + 2 * List.length ip <= cap)%nat ->
  filter not_comma (commas_int_loop ip cap out) = filter not_comma (out ++ ip) /\
  (List.length (commas_int_loop ip cap out) <= List.length out + 2 * List.length ip)%nat.
Proof.
  induction ip as [|c ip IH]; intros out H; cbn [commas_int_loop].
  - rewrite app_nil_r. split; [reflexivity | lia].
  - change (List.length (c :: ip)) with (S (List.length ip)) in *.
    replace (List.length out <? cap)%nat with true
      by (symmetry; apply Nat.ltb_lt; lia).
    replace (out ++ c :: ip) with ((out ++ [c]) ++ ip) by (rewrite <- app_assoc; reflexivity).
    destruct ((0 <? List.length ip)%nat && (List.length ip mod 3 =? 0)%nat
              && (List.length (out ++ [c]) <? cap)%nat).
    + destruct (IH ((out ++ [c]) ++ [","%char])) as [IH1 IH2];
        [rewrite !length_app; simpl; lia|].
      split.
      * rewrite IH1, !filter_app. simpl. rewrite app_nil_r. reflexivity.
      * rewrite !length_app in IH2. simpl in IH2. lia.
    + destruct (IH (out ++ [c])) as [IH1 IH2]; [rewrite length_app; simpl; lia|].
      split; [exact IH1|]. rewrite length_app in IH2. simpl in IH2. lia.
Qed.

Lemma copy_loop_room (s : list ascii) (cap : nat) :
  forall out, (List.length out + List.length s <= cap)%nat -> copy_loop s cap out = out ++ s.
Proof.
  induction s as [|c s IH]; intros out H; simpl.
  - rewrite app_nil_r. reflexivity.
  - simpl in H. replace (List.length out <? cap)%nat with true
      by (symmetry; apply Nat.ltb_lt; lia).
    rewrite IH by (rewrite length_app; simpl; lia). rewrite <- app_assoc. reflexivity.
Qed.

Lemma filter_not_comma_id (s : list ascii) : ~ In ","%char s -> filter not_comma s = s.
Proof.
  induction s as [|c s IH]; intros H; [reflexivity|]. simpl.
  unfold not_comma at 1. destruct (Ascii.eqb c ",") eqn:E.
  - apply Ascii.eqb_eq in E. subst c. exfalso. apply H. left. reflexivity.
  - simpl. rewrite IH by (intros H'; apply H; right; exact H'). reflexivity.
Qed.

(** X13. With a buffer of more than twice the input's length, [insert_commas]
    loses and adds no character of a number without commas but the
    thousands separators it inserts: removing the commas from its output
    gives back the input, sign, integer digits, dot and fraction alike. *)
Theorem insert_commas_only_adds_commas (src : list ascii) (dest_size : nat) :
  ~ In ","%char src -> (2 * List.length src < dest_size)%nat ->
  option_map (filter not_comma) (insert_commas src dest_size) = Some src.
Proof.
  intros Hc Hn. unfold insert_commas. destruct dest_size as [|cap]; [lia|].
  assert (Hcap : (2 * List.length src <= cap)%nat) by lia.
  destruct (match src with
            | c :: t => if Ascii.eqb c "-" then (true, t) else (false, src)
            | [] => (false, src) end) as [negative start] eqn:Eneg.
  assert (Hsrc : src = (if negative && (0 <? cap)%nat then ["-"%char] else []) ++ start).
  { destruct src as [|c t].
    - injection Eneg as <- <-. reflexivity.
    - destruct (Ascii.eqb c "-") eqn:E; injection Eneg as <- <-.
      + apply Ascii.eqb_eq in E. subst c. simpl in Hcap.
        replace (0 <? cap)%nat with true by (symmetry; apply Nat.ltb_lt; lia). reflexivity.
      + reflexivity. }
  set (out0 := if negative && (0 <? cap)%nat then ["-"%char] else []) in *.
  pose proof (split_at_dot_spec start) as Hsp.
  destruct (split_at_dot start) as [ip dot].
  assert (Hnc0 : ~ In ","%char (out0 ++ start)) by (rewrite <- Hsrc; exact Hc).
  destruct dot as [frac|]; destruct Hsp as [Hst _]; subst start.
  - assert (Hlen : (List.length out0 + 2 * List.length ip + 2 + List.length frac
                     <= 2 * List.length src)%nat).
    { rewrite Hsrc, !length_app. simpl. unfold out0.
      destruct (negative && (0 <? cap)%nat); simpl; lia. }
    destruct (commas_int_loop_room ip cap out0) as [H1 H2]; [lia|].
    replace (List.length (commas_int_loop ip cap out0) <? cap)%nat with true
      by (symmetry; apply Nat.ltb_lt; lia).
    rewrite copy_loop_room by (rewrite length_app; simpl; lia).
    simpl. f_equal. rewrite <- app_assoc, filter_app, H1, <- filter_app.
    transitivity (filter not_comma src); [| apply filter_not_comma_id; exact Hc].
    rewrite Hsrc, <- app_assoc. reflexivity.
  - assert (Hlen : (List.length out0 + 2 * List.length ip <= 2 * List.length src)%nat).
    { rewrite Hsrc, !length_app. unfold out0.
      destruct (negative && (0 <? cap)%nat); simpl; lia. }
    destruct (commas_int_loop_room ip cap out0) as [H1 _]; [lia|].
    simpl. f_equal. rewrite H1, Hsrc. apply filter_not_comma_id. rewrite <- Hsrc. exact Hc.
Qed.

Lemma insert_commas_only_adds_commas_witness :
  option_map (filter not_comma) (insert_commas (list_ascii_of_string "-1234567.891") 64)
  = Some (list_ascii_of_string "-1234567.891").
Proof.
  apply insert_commas_only_adds_commas; [|simpl; lia].
  simpl. intros H. repeat (destruct H as [H|H]; [discriminate H|]). exact H.
Defined.

Lemma drop_zeros_rev_spec (r : list ascii) :
  exists zs, r = zs ++ drop_zeros_rev r /\ Forall (fun c => c = "0"%char) zs /\
  (drop_zeros_rev r = [] \/ exists c r', drop_zeros_rev r = c :: r' /\ c <> "0"%char).
Proof.
  induction r as [|c r IH]; simpl.
  - exists []. split; [reflexivity|]. split; [constructor | left; reflexivity].
  - destruct (Ascii.eqb c "0") eqn:E.
    + apply Ascii.eqb_eq in E. subst c. destruct IH as (zs & H1 & H2 & H3).
      exists ("0"%char :: zs). split; [simpl; f_equal; exact H1|]. split; [constructor; auto | exact H3].
    + apply Ascii.eqb_neq in E. exists []. split; [reflexivity|]. split; [constructor|].
      right. exists c, r. auto.
Qed.

Lemma last_app_cons (l m : list ascii) (a d : ascii) :
  last (l ++ a :: m) d = last (a :: m) d.
Proof.
  induction l as [|x l IH]; [reflexivity|]. simpl. rewrite IH.
  destruct (l ++ a :: m) eqn:E; [destruct l; discriminate | reflexivity].
Qed.

(** X14. [ui_trim_trailing_zeros] only removes zeros at the end of the
    fraction, and the dot when the whole fraction goes: a string without a
    dot is left alone; otherwise the input is the result followed by zeros,
    or by the dot and zeros when the result has no dot left. A result that
    keeps its dot does not end in '0', so trimming again changes nothing. *)
Theorem trim_trailing_zeros_spec (buf : list ascii) :
  let r := ui_trim_trailing_zeros buf in
  (~ In "."%char buf -> r = buf) /\
  (exists zs, Forall (fun c => c = "0"%char) zs /\
     (buf = r ++ zs \/ (buf = r ++ "."%char :: zs /\ ~ In "."%char r))) /\
  (In "."%char r -> last r "0"%char <> "0"%char) /\
  ui_trim_trailing_zeros r = r.
Proof.
  intros r. unfold r, ui_trim_trailing_zeros.
  pose proof (split_at_dot_spec buf) as Hsp.
  destruct (split_at_dot buf) as [ip [frac|]] eqn:Es.
  2:{ destruct Hsp as [Hb Hn]. subst buf.
      split; [reflexivity|]. split; [exists []; split; [constructor | left; rewrite app_nil_r; reflexivity]|].
      split; [intros H; contradiction|]. rewrite Es. reflexivity. }
  destruct Hsp as [Hb Hn].
  destruct (drop_zeros_rev_spec (rev frac)) as (zs & Hz1 & Hz2 & Hz3).
  assert (Hfrac : frac = rev (drop_zeros_rev (rev frac)) ++ rev zs).
  { rewrite <- rev_app_distr, <- Hz1, rev_involutive. reflexivity. }
  assert (Hzs : Forall (fun c => c = "0"%char) (rev zs)).
  { apply Forall_forall. intros x Hx. apply in_rev in Hx. rewrite Forall_forall in Hz2. auto. }
  destruct Hz3 as [Hd | (c & r' & Hd & Hc)].
  - rewrite Hd. simpl.
    split; [intros H; exfalso; apply H; rewrite Hb; apply in_or_app; right; left; reflexivity|].
    split; [exists (rev zs); split; [exact Hzs|]; right; split; [|exact Hn]|].
    + rewrite Hb, Hfrac, Hd. reflexivity.
    + split; [intros H; contradiction|]. rewrite split_at_dot_nodot by exact Hn. reflexivity.
  - rewrite Hd. remember (rev (c :: r')) as d eqn:Edef.
    assert (Hlast : last d "0"%char = c) by (rewrite Edef; simpl; apply last_last).
    assert (Hrd : rev d = c :: r') by (rewrite Edef; apply rev_involutive).
    destruct d as [|d0 d']; [simpl in Hrd; discriminate Hrd|].
    split; [intros H; exfalso; apply H; rewrite Hb; apply in_or_app; right; left; reflexivity|].
    split.
    + exists (rev zs). split; [exact Hzs|]. left. rewrite Hb, Hfrac, Hd, <- Edef.
      rewrite <- app_assoc. reflexivity.
    + split.
      * intros _. rewrite last_app_cons.
        change (last ("."%char :: d0 :: d') "0"%char) with (last (d0 :: d') "0"%char).
        rewrite Hlast. exact Hc.
      * rewrite split_at_dot_app by exact Hn. rewrite Hrd. cbn [drop_zeros_rev].
        replace (Ascii.eqb c "0") with false by (symmetry; apply Ascii.eqb_neq; exact Hc).
        rewrite <- Hrd, rev_involutive. reflexivity.
Qed.

Lemma trim_leading_spec (s : list ascii) :
  exists pre, s = pre ++ trim_leading s /\ forallb isspace pre = true /\
  (trim_leading s = [] \/ exists c t, trim_leading s = c :: t /\ isspace c = false).
Proof.
  induction s as [|c s IH]; simpl.
  - exists []. split; [reflexivity|]. split; [reflexivity | left; reflexivity].
  - destruct (isspace c) eqn:E.
    + destruct IH as (pre & H1 & H2 & H3). exists (c :: pre).
      split; [simpl; f_equal; exact H1|]. split; [simpl; rewrite E; exact H2 | exact H3].
    + exists []. split; [reflexivity|]. split; [reflexivity|]. right. exists c, s. auto.
Qed.

Lemma drop_space_rev_spec (r : list ascii) :
  r <> [] ->
  exists dropped, r = dropped ++ drop_space_rev r /\ forallb isspace dropped = true /\
  drop_space_rev r <> [] /\
  (isspace (hd "0"%char (drop_space_rev r)) = false \/ drop_space_rev r = [last r "0"%char]).
Proof.
  induction r as [|c r IH]; intros Hne; [congruence|].
  destruct r as [|c' r].
  - exists []. simpl. split; [reflexivity|]. split; [reflexivity|].
    split; [discriminate | right; reflexivity].
  - change (drop_space_rev (c :: c' :: r))
      with (if isspace c then drop_space_rev (c' :: r) else c :: c' :: r).
    destruct (isspace c) eqn:E.
    + destruct IH as (dr & H1 & H2 & H3 & H4); [discriminate|].
      exists (c :: dr). split; [simpl; f_equal; exact H1|].
      split; [simpl; rewrite E; exact H2|]. split; [exact H3|]. exact H4.
    + exists []. split; [reflexivity|]. split; [reflexivity|].
      split; [discriminate | left; exact E].
Qed.

Lemma trim_whitespace_infix (s : list ascii) :
  let t := trim_whitespace s in
  exists pre post, s = pre ++ t ++ post /\
    forallb isspace pre = true /\ forallb isspace post = true /\
    (t = [] \/ (isspace (hd "0"%char t) = false /\ isspace (last t "0"%char) = false)).
Proof.
  intros t. unfold t, trim_whitespace.
  destruct (trim_leading_spec s) as (pre & Hs & Hpre & Ht0).
  destruct (trim_leading s) as [|c t0] eqn:E.
  { exists pre, []. split; [rewrite Hs; simpl; rewrite !app_nil_r; reflexivity|].
    split; [exact Hpre|]. split; [reflexivity | left; reflexivity]. }
  destruct Ht0 as [Ht0 | (c' & t' & Ht0 & Hc)]; [discriminate|].
  injection Ht0 as <- <-.
  destruct (drop_space_rev_spec (rev (c :: t0))) as (dr & Hr & Hdr & Hne & Hhd);
    [simpl; destruct (rev t0); discriminate|].
  set (D := drop_space_rev (rev (c :: t0))) in *.
  assert (Hct : c :: t0 = rev D ++ rev dr).
  { rewrite <- rev_app_distr, <- Hr, rev_involutive. reflexivity. }
  destruct D as [|x D'] eqn:ED; [congruence|].
  assert (Hlx : last (rev (x :: D')) "0"%char = x) by (simpl; apply last_last).
  assert (Hhx : hd "0"%char (rev (x :: D')) = c).
  { simpl in Hct |- *. destruct (rev D' ++ [x]) as [|y l] eqn:Ey;
      [destruct (rev D'); discriminate | injection Hct as <- _; reflexivity]. }
  exists pre, (rev dr). split; [rewrite Hs, Hct; reflexivity|].
  split; [exact Hpre|].
  split.
  { apply forallb_forall. intros y Hy. apply in_rev in Hy.
    rewrite forallb_forall in Hdr. auto. }
  right. rewrite Hhx. split; [exact Hc|]. rewrite Hlx.
  destruct Hhd as [Hhd | Hhd]; [exact Hhd|].
  injection Hhd as -> ->. simpl in Hhx. rewrite Hhx. exact Hc.
Qed.

(** X15. [trim_whitespace] removes exactly the leading and trailing whitespace:
    the input is the result with only whitespace before and after it, and
    a nonempty result neither starts nor ends with whitespace. *)
Theorem trim_whitespace_spec (s : list ascii) :
  let t := trim_whitespace s in
  exists pre post, s = pre ++ t ++ post /\
    forallb isspace pre = true /\ forallb isspace post = true /\
    (t = [] \/ (isspace (hd "0"%char t) = false /\ isspace (last t "0"%char) = false)).
Proof. exact (trim_whitespace_infix s). Qed.

End TextFacts.
Module ConfigFacts.
Import Text ConfigFile TextFacts.

Lemma fgets_chunk_spec (n : nat) (s : list ascii) :
  let '(l, rest) := fgets_chunk n s in
  s = l ++ rest /\ (List.length l <= n)%nat /\ (s <> [] -> n <> 0%nat -> l <> []) /\
  (~ In newline l \/ exists l0, l = l0 ++ [newline] /\ ~ In newline l0).
Proof.
  revert s. induction n as [|n IH]; intros s.
  - simpl. split; [reflexivity|]. split; [lia|]. split; [congruence | left; tauto].
  - destruct s as [|c s]; simpl.
    + split; [reflexivity|]. split; [lia|]. split; [congruence | left; tauto].
    + destruct (Ascii.eqb c newline) eqn:E.
      * apply Ascii.eqb_eq in E. subst c.
        split; [reflexivity|]. split; [simpl; lia|]. split; [discriminate|].
        right. exists []. split; [reflexivity | tauto].
      * apply Ascii.eqb_neq in E. specialize (IH s). destruct (fgets_chunk n s) as [l rest].
        destruct IH as (H1 & H2 & _ & H4).
        split; [simpl; f_equal; exact H1|]. split; [simpl; lia|]. split; [discriminate|].
        destruct H4 as [H4 | (l0 & -> & H4)].
        -- left. intros [H|H]; [congruence | contradiction].
        -- right. exists (c :: l0). split; [reflexivity|]. intros [H|H]; [congruence | contradiction].
Qed.

Lemma cstr_spec (l : list ascii) : (exists x, l = cstr l ++ x) /\ ~ In Ascii.zero (cstr l).
Proof.
  induction l as [|c l [(x & Hx) Hn]]; simpl.
  - split; [exists []; reflexivity | tauto].
  - destruct (Ascii.eqb c Ascii.zero) eqn:E.
    + split; [exists (c :: l); reflexivity | tauto].
    + apply Ascii.eqb_neq in E. split; [exists x; simpl; f_equal; exact Hx|].
      intros [H|H]; [congruence | contradiction].
Qed.

Lemma newline_at_end (u v l0 : list ascii) :
  u ++ newline :: v = l0 ++ [newline] -> ~ In newline l0 -> v = [].
Proof.
  revert l0. induction u as [|y u IH]; intros l0 H Hn.
  - destruct l0 as [|z l0]; simpl in H.
    + injection H as H. exact H.
    + injection H as <- _. exfalso. apply Hn. left. reflexivity.
  - destruct l0 as [|z l0]; simpl in H.
    + injection H as _ H. destruct u; discriminate.
    + injection H as _ H. apply (IH l0 H). intros H'. apply Hn. right. exact H'.
Qed.

Lemma isspace_newline : isspace newline = true.
Proof. reflexivity. Qed.

Lemma stored_symbol_ok (line : list ascii) :
  let t := trim_whitespace (cstr line) in
  (~ In newline line \/ exists l0, line = l0 ++ [newline] /\ ~ In newline l0) ->
  (List.length t =? 0)%nat
    || match t with c :: _ => Ascii.eqb c "#" | [] => false end = false ->
  let sym := firstn (MAX_SYMBOL_LEN - 1) t in
  sym <> [] /\ (List.length sym <= MAX_SYMBOL_LEN - 1)%nat /\
  isspace (hd "0"%char sym) = false /\ hd "0"%char sym <> "#"%char /\
  ~ In Ascii.zero sym /\ ~ In newline sym.
Proof.
  intros t Hline Hskip sym.
  destruct (trim_whitespace_infix (cstr line)) as (pre & post & Hs & Hpre & Hpost & Ht).
  fold t in Hs, Ht. destruct (cstr_spec line) as [(x & Hx) Hz].
  unfold sym. clearbody t.
  assert (Hin : forall a, In a (firstn (MAX_SYMBOL_LEN - 1) t) -> In a t).
  { intros a Ha. rewrite <- (firstn_skipn (MAX_SYMBOL_LEN - 1) t). apply in_or_app. left. exact Ha. }
  pose proof (firstn_le_length (MAX_SYMBOL_LEN - 1) t) as Hle.
  destruct t as [|c t'] eqn:Et; [discriminate|].
  apply orb_false_elim in Hskip as [_ Hh]. apply Ascii.eqb_neq in Hh.
  destruct Ht as [Ht|[Hc Hl]]; [discriminate|]. simpl in Hc.
  rewrite <- Et in *.
  assert (Hfe : firstn (MAX_SYMBOL_LEN - 1) t = c :: firstn (MAX_SYMBOL_LEN - 2) t')
    by (rewrite Et; reflexivity).
  rewrite Hfe.
  split; [discriminate|]. split; [rewrite Et in Hle; exact Hle|].
  simpl hd.
  split; [exact Hc|]. split; [exact Hh|].
  split.
  - intros H. rewrite <- Hfe in H. apply Hin in H. apply Hz. rewrite Hs. apply in_or_app. right. apply in_or_app. left. exact H.
  - intros H. rewrite <- Hfe in H. apply Hin in H. apply in_split in H as (a & b & Hab).
    destruct Hline as [Hline | (l0 & Hl0 & Hn0)].
    + apply Hline. rewrite Hx, Hs, Hab. apply in_or_app. left. apply in_or_app. right.
      apply in_or_app. left. apply in_or_app. right. left. reflexivity.
    + assert (Hb : b ++ post ++ x = []).
      { apply (newline_at_end (pre ++ a) (b ++ post ++ x) l0); [|exact Hn0].
        rewrite <- Hl0, Hx, Hs, Hab. rewrite <- !app_assoc. reflexivity. }
      destruct b; [|discriminate]. rewrite Hab in Hl. rewrite last_last in Hl. discriminate.
Qed.

Lemma load_lines_ok (fuel : nat) :
  forall s acc,
  (List.length acc <= MAX_SYMBOLS)%nat ->
  Forall (fun sym => sym <> [] /\ (List.length sym <= MAX_SYMBOL_LEN - 1)%nat /\
            isspace (hd "0"%char sym) = false /\ hd "0"%char sym <> "#"%char /\
            ~ In Ascii.zero sym /\ ~ In newline sym) acc ->
  let res := load_lines fuel s acc in
  (List.length res <= MAX_SYMBOLS)%nat /\
  Forall (fun sym => sym <> [] /\ (List.length sym <= MAX_SYMBOL_LEN - 1)%nat /\
            isspace (hd "0"%char sym) = false /\ hd "0"%char sym <> "#"%char /\
            ~ In Ascii.zero sym /\ ~ In newline sym) res.
Proof.
  induction fuel as [|fuel IH]; intros s acc Hl Hf; cbn [load_lines]; [auto|].
  destruct s as [|c s']; [auto|].
  pose proof (fgets_chunk_spec (MAX_SYMBOL_LEN + 1) (c :: s')) as Hch.
  destruct (fgets_chunk (MAX_SYMBOL_LEN + 1) (c :: s')) as [line rest].
  destruct Hch as (_ & _ & _ & Hline).
  destruct (List.length acc <? MAX_SYMBOLS)%nat eqn:Ec; [|auto].
  apply Nat.ltb_lt in Ec.
  destruct ((List.length (trim_whitespace (cstr line)) =? 0)%nat
            || match trim_whitespace (cstr line) with c :: _ => Ascii.eqb c "#" | [] => false end)
    eqn:Eskip; [apply IH; assumption|].
  apply IH.
  - rewrite length_app. simpl. lia.
  - apply Forall_app. split; [exact Hf|]. constructor; [|constructor].
    exact (stored_symbol_ok line Hline Eskip).
Qed.

Lemma cstr_id (l : list ascii) : ~ In Ascii.zero l -> cstr l = l.
Proof.
  induction l as [|c l IH]; intros H; [reflexivity|]. simpl.
  destruct (Ascii.eqb c Ascii.zero) eqn:E.
  - apply Ascii.eqb_eq in E. subst c. exfalso. apply H. left. reflexivity.
  - rewrite IH by (intros H'; apply H; right; exact H'). reflexivity.
Qed.

Lemma fgets_chunk_line (n : nat) (sym rest : list ascii) :
  (List.length sym < n)%nat -> ~ In newline sym ->
  fgets_chunk n (sym ++ newline :: rest) = (sym ++ [newline], rest).
Proof.
  revert n. induction sym as [|c sym IH]; intros n Hn Hnl.
  - destruct n as [|n]; [simpl in Hn; lia|]. simpl.
    reflexivity.
  - destruct n as [|n]; [simpl in Hn; lia|]. simpl.
    replace (Ascii.eqb c newline) with false
      by (symmetry; apply Ascii.eqb_neq; intros ->; apply Hnl; left; reflexivity).
    rewrite IH; [reflexivity | simpl in Hn; lia | intros H; apply Hnl; right; exact H].
Qed.

Lemma drop_space_rev_keep (y : ascii) (z : list ascii) :
  isspace y = false -> drop_space_rev (y :: z) = y :: z.
Proof. intros H. destruct z; [reflexivity|]. simpl. rewrite H. reflexivity. Qed.

Lemma trim_line (sym : list ascii) :
  sym <> [] -> ~ In Ascii.zero sym ->
  isspace (hd "0"%char sym) = false -> isspace (last sym "0"%char) = false ->
  trim_whitespace (cstr (sym ++ [newline])) = sym.
Proof.
  intros Hne Hz Hh Hl.
  rewrite cstr_id by (intros H; apply in_app_or in H as [H|[H|[]]]; [exact (Hz H) | discriminate H]).
  destruct sym as [|c t]; [congruence|]. simpl in Hh.
  unfold trim_whitespace. simpl app. cbn [trim_leading]. rewrite Hh.
  replace (rev (c :: t ++ [newline])) with (newline :: rev (c :: t)) by (rewrite app_comm_cons, rev_app_distr; reflexivity).
  destruct (rev (c :: t)) as [|y z] eqn:Er.
  - simpl in Er. destruct (rev t); discriminate.
  - assert (Hct : c :: t = rev z ++ [y]) by (change (rev z ++ [y]) with (rev (y :: z)); rewrite <- Er, rev_involutive; reflexivity).
    rewrite Hct, last_last in Hl.
    change (drop_space_rev (newline :: y :: z)) with
      (if isspace newline then drop_space_rev (y :: z) else newline :: y :: z).
    rewrite isspace_newline, drop_space_rev_keep by exact Hl.
    rewrite <- Er, rev_involutive. reflexivity.
Qed.

Lemma load_lines_save (syms : list (list ascii)) :
  forall acc fuel,
  (List.length acc + List.length syms <= MAX_SYMBOLS)%nat ->
  Forall (fun sym => sym <> [] /\ (List.length sym <= MAX_SYMBOL_LEN - 1)%nat /\
            ~ In Ascii.zero sym /\ ~ In newline sym /\
            isspace (hd "0"%char sym) = false /\ isspace (last sym "0"%char) = false /\
            hd "0"%char sym <> "#"%char) syms ->
  (List.length (save_config syms) <= fuel)%nat ->
  load_lines fuel (save_config syms) acc = acc ++ syms.
Proof.
  induction syms as [|sym syms IH]; intros acc fuel Hn Hok Hf.
  - rewrite app_nil_r. destruct fuel; reflexivity.
  - inversion Hok as [|? ? (Hne & Hlen & Hz & Hnl & Hh & Hl & Hc) Hok']; subst.
    assert (Hsv : save_config (sym :: syms) = sym ++ newline :: save_config syms).
    { unfold save_config. simpl. rewrite cstr_id by exact Hz. rewrite <- app_assoc. reflexivity. }
    rewrite Hsv in Hf |- *. rewrite length_app in Hf. simpl in Hf.
    destruct fuel as [|fuel]; [destruct sym; [congruence | simpl in Hf; lia]|].
    cbn [load_lines].
    rewrite fgets_chunk_line by (exact Hnl || (unfold MAX_SYMBOL_LEN in *; lia)).
    destruct (sym ++ newline :: save_config syms) as [|? ?] eqn:Es;
      [destruct sym; discriminate|].
    simpl in Hn.
    replace (List.length acc <? MAX_SYMBOLS)%nat with true by (symmetry; apply Nat.ltb_lt; lia).
    rewrite trim_line by assumption.
    destruct sym as [|c t]; [congruence|]. simpl in Hc.
    replace (Ascii.eqb c "#") with false by (symmetry; apply Ascii.eqb_neq; exact Hc).
    simpl orb. rewrite firstn_all2 by exact Hlen.
    rewrite IH; [rewrite <- app_assoc; reflexivity | rewrite length_app; simpl; lia | exact Hok' | lia].
Qed.

(** X16. What [load_config] loads is always a well-formed watch list: at most
    [MAX_SYMBOLS] symbols, each nonempty and at most 19 characters long,
    starting with neither whitespace nor '#', and containing no NUL and no
    newline, whatever the file holds (and when there is no file). *)
Theorem load_config_wellformed (file : option (list ascii)) :
  let syms := load_config file in
  (List.length syms <= MAX_SYMBOLS)%nat /\
  Forall (fun sym => sym <> [] /\ (List.length sym <= MAX_SYMBOL_LEN - 1)%nat /\
            isspace (hd "0"%char sym) = false /\ hd "0"%char sym <> "#"%char /\
            ~ In Ascii.zero sym /\ ~ In newline sym) syms.
Proof.
  intros syms. unfold syms, load_config. destruct file as [s|].
  - apply load_lines_ok; [simpl; lia | constructor].
  - split; [unfold MAX_SYMBOLS; simpl; lia|].
    repeat constructor; try discriminate;
      simpl; intros H; repeat (destruct H as [H|H]; [discriminate H|]); exact H.
Qed.

(** X17. [save_config] then [load_config] gives the watch list back: every list
    of at most [MAX_SYMBOLS] symbols that [load_config] could itself have
    produced with no trailing whitespace (each nonempty, at most 19
    characters, without NUL or newline, starting with neither whitespace
    nor '#' and not ending in whitespace) survives the round trip through
    the file unchanged. *)
Theorem save_then_load (syms : list (list ascii)) :
  (List.length syms <= MAX_SYMBOLS)%nat ->
  Forall (fun sym => sym <> [] /\ (List.length sym <= MAX_SYMBOL_LEN - 1)%nat /\
            ~ In Ascii.zero sym /\ ~ In newline sym /\
            isspace (hd "0"%char sym) = false /\ isspace (last sym "0"%char) = false /\
            hd "0"%char sym <> "#"%char) syms ->
  load_config (Some (save_config syms)) = syms.
Proof.
  intros Hn Hok. unfold load_config.
  exact (load_lines_save syms [] _ Hn Hok (le_n _)).
Qed.

Lemma save_then_load_witness :
  load_config (Some (save_config default_symbols)) = default_symbols.
Proof.
  apply save_then_load; [unfold MAX_SYMBOLS; simpl; lia|].
  repeat constructor; try discriminate;
    simpl; intros H; repeat (destruct H as [H|H]; [discriminate H|]); exact H.
Defined.

End ConfigFacts.
